(** * LayerEdge automation (src/main.js): retrying requests, account
      workflow and batched orchestration

    A shallow embedding of [RequestHandler.makeRequest], the
    [LayerEdgeConnection] operations, [processWallet] and
    [processWalletsInBatches], followed by the properties established
    about them.

    Conventions.
    - JavaScript values are the data type [JSValue]; a property read on
      [null] or [undefined] raises a [TypeError], optional chaining does
      not.
    - JavaScript numbers that measure time are IEEE 754 doubles, with the
      rounding of every multiplication and division; a timer is recorded
      with the number of milliseconds handed to [setTimeout].
    - Turning a value into text fails with a [TypeError] when the value
      is, or an array of it holds, an object with a "toString" field of
      its own: a parsed JSON body has no callable field.
    - The network is an oracle: for each attempt of each request it says
      whether the exchange failed or which HTTP response came back.
    - The log calls of [processWallet] and of [processWalletsInBatches]
      are kept as actions and events.  Those of the session operations
      that print a part of the response are kept for what they may
      throw; the others print fixed text, or the message of an error
      object, and are left out.
    - The libraries are oracles as well: whether ethers accepts a
      private key, and whether a proxy agent accepts its address. *)

From Stdlib Require Import List String ZArith QArith SpecFloat Bool Arith Lia.
Import ListNotations.
Local Open Scope string_scope.
Local Open Scope list_scope.
Local Open Scope nat_scope.
Set Warnings "-register-all".

(* ================================================================== *)
(** * JavaScript values *)
(* ================================================================== *)

Module JS.

Inductive JSValue : Type :=
| JUndefined
| JNull
| JBool (b : bool)
| JNum (n : Z)
| JStr (s : string)
| JArr (items : list JSValue)
| JObj (fields : list (string * JSValue)).

Inductive Exn : Type :=
| TypeError  (* a property read on null or undefined, or a value that
                cannot be turned into text *)
| KeyError   (* new Wallet(privateKey) rejected the key *)
| InvalidUrl (* a proxy agent rejected its address *)
| Failure (message : string). (* throw new Error(message) *)

(** An expression either throws or yields a value. *)
Definition Res (A : Type) : Type := (Exn + A)%type.

Definition bindR {A B} (r : Res A) (f : A -> Res B) : Res B :=
  match r with
  | inl e => inl e
  | inr a => f a
  end.

(** [ToBoolean]: undefined, null, false, 0 and the empty string are the
    falsy values; every array and object is truthy. *)
Definition truthy (v : JSValue) : bool :=
  match v with
  | JUndefined | JNull => false
  | JBool b => b
  | JNum n => negb (n =? 0)%Z
  | JStr s => negb (String.eqb s "")
  | JArr _ | JObj _ => true
  end.

Definition nullish (v : JSValue) : bool :=
  match v with
  | JUndefined | JNull => true
  | _ => false
  end.

Fixpoint lookup (name : string) (fields : list (string * JSValue)) : JSValue :=
  match fields with
  | [] => JUndefined
  | (k, v) :: rest => if String.eqb k name then v else lookup name rest
  end.

(** [v.name].  The names read by the program ("data", "message",
    "valid", "startTimestamp", "nodePoints") are not built-in properties
    of primitives or arrays, so those read as undefined. *)
Definition get (v : JSValue) (name : string) : Res JSValue :=
  match v with
  | JUndefined | JNull => inl TypeError
  | JObj fields => inr (lookup name fields)
  | _ => inr JUndefined
  end.

(** [v?.name] *)
Definition get_opt (v : JSValue) (name : string) : Res JSValue :=
  if nullish v then inr JUndefined else get v name.

(** [v === "s"] *)
Definition str_eq (v : JSValue) (s : string) : bool :=
  match v with
  | JStr s' => String.eqb s' s
  | _ => false
  end.

(** [v === false] *)
Definition is_false (v : JSValue) : bool :=
  match v with
  | JBool false => true
  | _ => false
  end.

(** [v !== null] *)
Definition not_null (v : JSValue) : bool :=
  match v with
  | JNull => false
  | _ => true
  end.

(** [a || b] *)
Definition or_else (a b : JSValue) : JSValue :=
  if truthy a then a else b.

Fixpoint has_key (name : string) (fields : list (string * JSValue)) : bool :=
  match fields with
  | [] => false
  | (k, _) :: rest => String.eqb k name || has_key name rest
  end.

(** Whether [ToString] succeeds on a value parsed from JSON.  An object
    is converted by its "toString" method, which it inherits unless it
    has a field of that name; such a field is not callable, the inherited
    [valueOf] returns the object itself, and the conversion throws.  An
    array joins the conversions of its elements. *)
Fixpoint to_string_ok (v : JSValue) : bool :=
  match v with
  | JObj fields => negb (has_key "toString" fields)
  | JArr items =>
      (fix all (l : list JSValue) : bool :=
         match l with
         | [] => true
         | x :: rest => to_string_ok x && all rest
         end) items
  | _ => true
  end.

(** The conversion itself, for its effect. *)
Definition to_string (v : JSValue) : Res unit :=
  if to_string_ok v then inr tt else inl TypeError.

End JS.
Import JS.

(* ================================================================== *)
(** * Numbers *)
(* ================================================================== *)

(** IEEE 754 binary64 with round-to-nearest-even, the arithmetic of
    JavaScript numbers. *)
Module Double.

Definition t : Type := spec_float.

Definition prec : Z := 53.
Definition emax : Z := 1024.

(** The double nearest to an integer; exact below [2 ^ 53]. *)
Definition of_Z (z : Z) : t := binary_normalize prec emax z 0 false.

Definition mul : t -> t -> t := SFmul prec emax.
Definition div : t -> t -> t := SFdiv prec emax.

(** The number a finite double stands for. *)
Definition to_Q (x : t) : Q :=
  match x with
  | S754_finite s m e =>
      (inject_Z (if s then Z.neg m else Z.pos m) * 2 ^ e)%Q
  | _ => 0%Q
  end.

End Double.

Arguments Double.of_Z : simpl never.
Arguments Double.mul : simpl never.
Arguments Double.div : simpl never.
Arguments Double.to_Q : simpl never.

(* ================================================================== *)
(** * The log *)
(* ================================================================== *)

Module logger.

(** [log(level, message, value = '', error = null)].  The message is
    text already.  A truthy [value] goes through a chalk style, which
    turns it into text; so does [error.message] for a truthy [error]
    ([this.verbose] is the function stored last under that key, hence
    truthy). *)
Definition log (value error : JSValue) : Res unit :=
  bindR (if truthy value then to_string value else inr tt) (fun _ =>
  if truthy error then bindR (get error "message") to_string
  else inr tt).

(** [info: (message, value = '') => logger.log('info', message, value)] *)
Definition info (value : JSValue) : Res unit := log value JNull.

(** [error: (message, value = '', error = null) =>
    logger.log('error', message, value, error)] *)
Definition error (value err : JSValue) : Res unit := log value err.

End logger.

(* ================================================================== *)
(** * The HTTP layer: axios and RequestHandler.makeRequest *)
(* ================================================================== *)

Record Response : Type := mkResponse {
  status : Z;
  data : JSValue
}.

(** What the network does with one attempt. *)
Inductive NetOutcome : Type :=
| NetFail                 (* connection error or timeout *)
| NetResp (r : Response). (* an HTTP response arrived *)

(** The part of an axios request configuration that decides behaviour.
    [validateStatus = None] is axios' default (2xx only). *)
Record Config : Type := mkConfig {
  method : string;
  url : string;
  timeout : Z;
  validateStatus : option (Z -> bool)
}.

(** The error axios rejects with; [err_response] is [error.response]. *)
Record AxiosError : Type := mkAxiosError {
  err_response : option Response
}.

Definition default_validateStatus (s : Z) : bool :=
  ((200 <=? s) && (s <? 300))%Z.

Definition axios (config : Config) (o : NetOutcome) : AxiosError + Response :=
  match o with
  | NetFail => inl (mkAxiosError None)
  | NetResp r =>
      let accept := match validateStatus config with
                    | Some f => f
                    | None => default_validateStatus
                    end in
      if accept (status r) then inr r else inl (mkAxiosError (Some r))
  end.

(** What one call of [makeRequest] does, in order. *)
Inductive ReqEvent : Type :=
| Attempt (i : nat)  (* axios(config) issued in iteration i *)
| Sleep (ms : Double.t). (* setTimeout(resolve, ms): the argument as the
                           program computes it *)

(** [delay(ms)] is [setTimeout(resolve, ms * 1000)]: its argument is in
    seconds. *)
Definition delay (s : Double.t) : ReqEvent :=
  Sleep (Double.mul s (Double.of_Z 1000)).

(** [Math.pow(1.5, i)] for the loop counter [i].  Up to [i = 33] the
    power is itself a double ([3 ^ 33 < 2 ^ 53]), the value [Math.pow]
    returns and the one this product gives.  Beyond, the language leaves
    the accuracy of [Math.pow] to the engine, and the product stands for
    a value that may differ from the engine's in the last place. *)
Fixpoint pow15 (i : nat) : Double.t :=
  match i with
  | O => Double.of_Z 1
  | S k => Double.mul (pow15 k) (Double.div (Double.of_Z 3) (Double.of_Z 2))
  end.

(** [error.response?.status === 500] *)
Definition is500 (error : AxiosError) : bool :=
  match err_response error with
  | Some r => (status r =? 500)%Z
  | None => false
  end.

Module RequestHandler.

(** The [for] loop of [makeRequest], from iteration [i] on.  [net k] is
    the fate of the attempt made in iteration [k].  [fuel] bounds the
    number of iterations still to run; [retries - i] is always enough. *)
Fixpoint loop (net : nat -> NetOutcome) (config : Config) (retries : nat)
         (backoffMs : Double.t) (fuel i : nat)
  : list ReqEvent * option Response :=
  match fuel with
  | O => ([], None)
  | S fuel' =>
      if i <? retries then
        match axios config (net i) with
        | inr response => ([Attempt i], Some response)
        | inl error =>
            let isLastRetry := i =? retries - 1 in
            if is500 error then
              if isLastRetry then ([Attempt i], None)
              else
                let waitTime := Double.mul backoffMs (pow15 i) in
                let '(evs, r) := loop net config retries backoffMs fuel' (S i) in
                (Attempt i :: delay (Double.div waitTime (Double.of_Z 1000))
                   :: evs, r)
            else if isLastRetry then ([Attempt i], None)
            else
              let '(evs, r) := loop net config retries backoffMs fuel' (S i) in
              (Attempt i :: delay (Double.of_Z 2) :: evs, r)
        end
      else ([], None)
  end.

(** [static async makeRequest(config, retries = 3, backoffMs = 2000)];
    an omitted argument is [None]. *)
Definition makeRequest (net : nat -> NetOutcome) (config : Config)
           (retries : option nat) (backoffMs : option Double.t)
  : list ReqEvent * option Response :=
  let retries := match retries with Some r => r | None => 3 end in
  let backoffMs := match backoffMs with
                   | Some b => b
                   | None => Double.of_Z 2000
                   end in
  loop net config retries backoffMs retries 0.

End RequestHandler.

Definition attempts (evs : list ReqEvent) : list nat :=
  flat_map (fun e => match e with Attempt i => [i] | Sleep _ => [] end) evs.

Definition sleeps (evs : list ReqEvent) : list Double.t :=
  flat_map (fun e => match e with Attempt _ => [] | Sleep ms => [ms] end) evs.

(* ================================================================== *)
(** * Asynchronous procedures *)
(* ================================================================== *)

(** The eight remote operations of a session. *)
Inductive Op : Type :=
| OpIsWalletRegistered
| OpCheckInvite
| OpRegisterWallet
| OpDailyCheckIn
| OpCheckNodeStatus
| OpConnectNode
| OpStopNode
| OpCheckNodePoints.

(** Synchronous effects of [processWallet] on the objects it shares with
    its caller ([stats], its own [wallet] row) and on the log. *)
Inductive Action : Type :=
| IncSuccess                         (* stats.success++ *)
| IncFailed                          (* stats.failed++ *)
| SetPoint (v : JSValue)             (* wallet.point = v *)
| LogVerbose (msg : string)
| LogError (msg : string)
| Progress (step : string) (st : string).

(** What a request does once the network is known. *)
Definition Request : Type :=
  (nat -> NetOutcome) -> list ReqEvent * option Response.

(** An [async] function body: it returns, throws, runs a synchronous
    effect, or suspends on [await this.makeRequest(...)] and goes on with
    the transport result. *)
Inductive Proc (A : Type) : Type :=
| Ret (a : A)
| Throw (e : Exn)
| Act (a : Action) (k : Proc A)
| Await (op : Op) (run : Request) (k : option Response -> Proc A).

Arguments Ret {A} a.
Arguments Throw {A} e.
Arguments Act {A} a k.
Arguments Await {A} op run k.

Fixpoint bind {A B} (p : Proc A) (f : A -> Proc B) : Proc B :=
  match p with
  | Ret a => f a
  | Throw e => Throw e
  | Act a k => Act a (bind k f)
  | Await op run k => Await op run (fun response => bind (k response) f)
  end.

(** [try { p } catch (error) { h error }] *)
Fixpoint try_catch {A} (p : Proc A) (h : Exn -> Proc A) : Proc A :=
  match p with
  | Ret a => Ret a
  | Throw e => h e
  | Act a k => Act a (try_catch k h)
  | Await op run k => Await op run (fun response => try_catch (k response) h)
  end.

Definition act (a : Action) : Proc unit := Act a (Ret tt).

Definition lift {A} (r : Res A) : Proc A :=
  match r with
  | inl e => Throw e
  | inr a => Ret a
  end.

Notation "x <- p ;; k" := (bind p (fun x => k))
  (at level 61, p at next level, right associativity).
Notation "p ;;; k" := (bind p (fun _ => k))
  (at level 61, right associativity).

(** One entry of what a procedure did when run on its own. *)
Inductive Step : Type :=
| SCall (op : Op) (evs : list ReqEvent)
| SAct (a : Action).

(** Run a procedure to its end against the network [net] of its
    account: the steps taken and the result. *)
Fixpoint exec {A} (net : Op -> nat -> NetOutcome) (p : Proc A)
  : list Step * Res A :=
  match p with
  | Ret a => ([], inr a)
  | Throw e => ([], inl e)
  | Act a k =>
      let '(steps, r) := exec net k in (SAct a :: steps, r)
  | Await op run k =>
      let '(evs, response) := run (net op) in
      let '(steps, r) := exec net (k response) in
      (SCall op evs :: steps, r)
  end.

Definition calls (steps : list Step) : list Op :=
  flat_map (fun s => match s with SCall op _ => [op] | SAct _ => [] end) steps.

Definition actions (steps : list Step) : list Action :=
  flat_map (fun s => match s with SCall _ _ => [] | SAct a => [a] end) steps.

(* ================================================================== *)
(** * The libraries, and the transport resolver: newAgent *)
(* ================================================================== *)

(** What the constructors of the libraries do with a string.
    [wallet_address] stands for ethers' [new Wallet(key)]: the address
    of the key, or nothing when the key is rejected (ethers then
    throws).  [https_agent] and [socks_agent] say whether
    [new HttpsProxyAgent(proxy)] and [new SocksProxyAgent(proxy)] accept
    the address; they throw otherwise (a string that is not a URL, a
    port out of range). *)
Record Library : Type := mkLibrary {
  wallet_address : string -> option string;
  https_agent : string -> bool;
  socks_agent : string -> bool
}.

(** The agent object built for a proxy, with the string handed to its
    constructor. *)
Inductive Agent : Type :=
| HttpsProxyAgent (proxy : string)
| SocksProxyAgent (proxy : string).

(** [s.startsWith(p)] *)
Definition startsWith (s p : string) : bool := String.prefix p s.

(** [const newAgent = (proxy = null) => ...]: the agent returned ([null]
    is [None]) or the exception of the constructor, and the proxies a
    warning was logged for.  A missing cell and the empty string are
    both falsy. *)
Definition newAgent (lib : Library) (proxy : option string)
  : Res (option Agent) * list string :=
  match proxy with
  | None => (inr None, [])
  | Some p =>
      if negb (String.eqb p "") then
        if startsWith p "http://" then
          (if https_agent lib p then inr (Some (HttpsProxyAgent p))
           else inl InvalidUrl, [])
        else if startsWith p "socks4://" || startsWith p "socks5://" then
          (if socks_agent lib p then inr (Some (SocksProxyAgent p))
           else inl InvalidUrl, [])
        else (inr None, [p])
      else (inr None, [])
  end.

(** [...(this.proxy && { httpsAgent: newAgent(this.proxy) })]: the
    [httpsAgent] entry of [axiosConfig], present only for a truthy
    proxy, and then possibly [null]. *)
Definition httpsAgent_entry (lib : Library) (proxy : option string)
  : Res (option (option Agent)) :=
  match proxy with
  | Some p =>
      if negb (String.eqb p "") then
        bindR (fst (newAgent lib proxy)) (fun agent => inr (Some agent))
      else inr None
  | None => inr None
  end.

(* ================================================================== *)
(** * The account session: class LayerEdgeConnection *)
(* ================================================================== *)

Module LayerEdgeConnection.

Record t : Type := mk {
  refCode : string;
  proxy : option string;
  retryCount : nat;
  httpsAgent : option (option Agent); (* axiosConfig.httpsAgent *)
  axiosTimeout : Z;                   (* axiosConfig.timeout *)
  axiosValidateStatus : Z -> bool;    (* axiosConfig.validateStatus *)
  wallet : string                     (* this.wallet.address *)
}.

(** The constructor: [axiosConfig] is built first, the agent included,
    and the wallet last.  The fixed headers are left out. *)
Definition new (lib : Library)
           (proxy : option string) (privateKey refCode : string) : Res t :=
  bindR (httpsAgent_entry lib proxy) (fun agent =>
  match wallet_address lib privateKey with
  | None => inl KeyError
  | Some address =>
      inr {| refCode := refCode;
             proxy := proxy;
             retryCount := 2;
             httpsAgent := agent;
             axiosTimeout := 60000;
             axiosValidateStatus := fun status => (status <? 500)%Z;
             wallet := address |}
  end).

(** [async makeRequest(method, url, config = {})]: the per-call
    [config] of the source only adds a body and headers, and the agent
    only changes the route of the connection. *)
Definition finalConfig (this : t) (method url : string) : Config :=
  {| method := method;
     url := url;
     timeout := axiosTimeout this;
     validateStatus := Some (axiosValidateStatus this) |}.

Definition request (this : t) (method url : string) : Request :=
  fun net =>
    RequestHandler.makeRequest net (finalConfig this method url)
                               (Some (retryCount this)) None.

Definition makeRequest (this : t) (op : Op) (method url : string)
  : Proc (option Response) :=
  Await op (request this method url) Ret.

Definition api : string := "https://referralapi.layeredge.io/api/".

(** ** What each operation makes of the transport result *)

(** The last branch of [isWalletRegistered], on [response?.data]:
    [logger.error('Failed to check wallet registration', '',
    response?.data || {}); return null]. *)
Definition registration_unknown (body : JSValue) : Res JSValue :=
  bindR (logger.error (JStr "") (or_else body (JObj []))) (fun _ =>
  inr JNull).

Definition isWalletRegistered_of (response : option Response) : Res JSValue :=
  match response with
  | Some r =>
      if (status r =? 200)%Z then inr (JBool true)
      else if (status r =? 404)%Z then
        bindR (get (data r) "message") (fun message =>
        if str_eq message "user not found" then inr (JBool false)
        else registration_unknown (data r))
      else registration_unknown (data r)
  | None => registration_unknown JUndefined
  end.

Definition checkInvite_of (response : option Response) : Res JSValue :=
  match response with
  | Some r =>
      bindR (get_opt (data r) "data") (fun d =>
      bindR (get_opt d "valid") (fun valid =>
      if truthy valid then inr (JBool true) else inr (JBool false)))
  | None => inr (JBool false)
  end.

(** The last branch of [registerWallet], on [response?.data]:
    [logger.error("Failed to register wallet", response?.data || {});
    return false]. *)
Definition registration_refused (body : JSValue) : Res JSValue :=
  bindR (logger.error (or_else body (JObj [])) JNull) (fun _ =>
  inr (JBool false)).

Definition registerWallet_of (response : option Response) : Res JSValue :=
  match response with
  | Some r =>
      if (status r =? 200)%Z then inr (JBool true)
      else registration_refused (data r)
  | None => registration_refused JUndefined
  end.

Definition dailyCheckIn_of (response : option Response) : Res JSValue :=
  match response with
  | Some r => if truthy (data r) then inr (JBool true) else inr (JBool false)
  | None => inr (JBool false)
  end.

Definition checkNodeStatus_of (response : option Response) : Res JSValue :=
  match response with
  | Some r =>
      if truthy (data r) then
        bindR (get (data r) "data") (fun d =>
        bindR (get d "startTimestamp") (fun startTimestamp =>
        if not_null startTimestamp then inr (JBool true)
        else inr (JBool false)))
      else inr (JBool false)
  | None => inr (JBool false)
  end.

Definition connectNode_of (response : option Response) : Res JSValue :=
  match response with
  | Some r =>
      if truthy (data r) then
        bindR (get (data r) "message") (fun message =>
        if str_eq message "node action executed successfully"
        then inr (JBool true) else inr (JBool false))
      else inr (JBool false)
  | None => inr (JBool false)
  end.

Definition stopNode_of (response : option Response) : Res JSValue :=
  match response with
  | Some r => if truthy (data r) then inr (JBool true) else inr (JBool false)
  | None => inr (JBool false)
  end.

Definition checkNodePoints_of (response : option Response) : Res JSValue :=
  match response with
  | Some r =>
      if truthy (data r) then
        bindR (get (data r) "data") (fun d =>
        bindR (get_opt d "nodePoints") (fun p =>
        let nodePoints := or_else p (JNum 0) in
        bindR (logger.info nodePoints) (fun _ =>
        inr nodePoints)))
      else inr JNull
  | None => inr JNull
  end.

(** ** The operations.  Signing ([wallet.signMessage]) and [Date.now()]
    only shape the request body and are left out. *)

Definition isWalletRegistered (this : t) : Proc JSValue :=
  response <- makeRequest this OpIsWalletRegistered "get"
                (api ++ "referral/wallet-details/" ++ wallet this)%string ;;
  lift (isWalletRegistered_of response).

Definition checkInvite (this : t) : Proc JSValue :=
  response <- makeRequest this OpCheckInvite "post"
                (api ++ "referral/verify-referral-code")%string ;;
  lift (checkInvite_of response).

Definition registerWallet (this : t) : Proc JSValue :=
  response <- makeRequest this OpRegisterWallet "post"
                (api ++ "referral/register-wallet/" ++ refCode this)%string ;;
  lift (registerWallet_of response).

Definition dailyCheckIn (this : t) : Proc JSValue :=
  response <- makeRequest this OpDailyCheckIn "post"
                (api ++ "light-node/claim-node-points")%string ;;
  lift (dailyCheckIn_of response).

Definition checkNodeStatus (this : t) : Proc JSValue :=
  response <- makeRequest this OpCheckNodeStatus "get"
                (api ++ "light-node/node-status/" ++ wallet this)%string ;;
  lift (checkNodeStatus_of response).

Definition connectNode (this : t) : Proc JSValue :=
  response <- makeRequest this OpConnectNode "post"
                (api ++ "light-node/node-action/" ++ wallet this ++ "/start")%string ;;
  lift (connectNode_of response).

Definition stopNode (this : t) : Proc JSValue :=
  response <- makeRequest this OpStopNode "post"
                (api ++ "light-node/node-action/" ++ wallet this ++ "/stop")%string ;;
  lift (stopNode_of response).

Definition checkNodePoints (this : t) : Proc JSValue :=
  response <- makeRequest this OpCheckNodePoints "get"
                (api ++ "referral/wallet-details/" ++ wallet this)%string ;;
  lift (checkNodePoints_of response).

(** The request behind each call site. *)
Definition request_of (this : t) (op : Op) : Request :=
  match op with
  | OpIsWalletRegistered =>
      request this "get" (api ++ "referral/wallet-details/" ++ wallet this)%string
  | OpCheckInvite =>
      request this "post" (api ++ "referral/verify-referral-code")%string
  | OpRegisterWallet =>
      request this "post" (api ++ "referral/register-wallet/" ++ refCode this)%string
  | OpDailyCheckIn =>
      request this "post" (api ++ "light-node/claim-node-points")%string
  | OpCheckNodeStatus =>
      request this "get" (api ++ "light-node/node-status/" ++ wallet this)%string
  | OpConnectNode =>
      request this "post"
              (api ++ "light-node/node-action/" ++ wallet this ++ "/start")%string
  | OpStopNode =>
      request this "post"
              (api ++ "light-node/node-action/" ++ wallet this ++ "/stop")%string
  | OpCheckNodePoints =>
      request this "get" (api ++ "referral/wallet-details/" ++ wallet this)%string
  end.

(** The operation behind each call site, and its reading of the
    transport result. *)
Definition operation (this : t) (op : Op) : Proc JSValue :=
  match op with
  | OpIsWalletRegistered => isWalletRegistered this
  | OpCheckInvite => checkInvite this
  | OpRegisterWallet => registerWallet this
  | OpDailyCheckIn => dailyCheckIn this
  | OpCheckNodeStatus => checkNodeStatus this
  | OpConnectNode => connectNode this
  | OpStopNode => stopNode this
  | OpCheckNodePoints => checkNodePoints this
  end.

Definition result_of (op : Op) : option Response -> Res JSValue :=
  match op with
  | OpIsWalletRegistered => isWalletRegistered_of
  | OpCheckInvite => checkInvite_of
  | OpRegisterWallet => registerWallet_of
  | OpDailyCheckIn => dailyCheckIn_of
  | OpCheckNodeStatus => checkNodeStatus_of
  | OpConnectNode => connectNode_of
  | OpStopNode => stopNode_of
  | OpCheckNodePoints => checkNodePoints_of
  end.

End LayerEdgeConnection.

(* ================================================================== *)
(** * The account workflow: processWallet *)
(* ================================================================== *)

(** A row of the spreadsheet; its cells hold text. *)
Record Wallet : Type := mkWallet {
  address : string;
  privateKey : string;
  proxy : option string;
  refCode : string;
  point : JSValue
}.

Definition set_point (w : Wallet) (v : JSValue) : Wallet :=
  {| address := address w; privateKey := privateKey w; proxy := proxy w;
     refCode := refCode w; point := v |}.

Module L := LayerEdgeConnection.

(** The steps from the daily check-in on (source lines 395-413). *)
Definition attest_and_reconnect (socket : L.t) : Proc unit :=
  act (Progress "Performing Daily Check-in" "processing") ;;;
  _ <- L.dailyCheckIn socket ;;
  act (Progress "Checking Node Status" "processing") ;;;
  isRunning <- L.checkNodeStatus socket ;;
  (if truthy isRunning then
     act (Progress "Claiming Node Points" "processing") ;;;
     _ <- L.stopNode socket ;;
     Ret tt
   else Ret tt) ;;;
  act (Progress "Reconnecting Node" "processing") ;;;
  _ <- L.connectNode socket ;;
  act (Progress "Checking Node Points" "processing") ;;;
  points <- L.checkNodePoints socket ;;
  act (SetPoint points) ;;;
  act (Progress "Wallet Processing Complete" "success") ;;;
  act IncSuccess.

(** The body of the [try] block. *)
Definition processWallet_try (lib : Library)
           (wallet : Wallet) (index total : nat) : Proc unit :=
  act (LogVerbose "Processing wallet") ;;;
  socket <- lift (L.new lib (proxy wallet) (privateKey wallet)
                        (refCode wallet)) ;;
  act (Progress "Checking registration status" "processing") ;;;
  isRegistered <- L.isWalletRegistered socket ;;
  if is_false isRegistered then
    act (Progress "Registering wallet..." "processing") ;;;
    isValidInvite <- L.checkInvite socket ;;
    if negb (truthy isValidInvite) then
      act (LogError "Invalid referral code, skipping...") ;;;
      Ret tt
    else
      registered <- L.registerWallet socket ;;
      if negb (truthy registered) then
        act (LogError "Failed to register wallet, skipping...") ;;;
        Ret tt
      else attest_and_reconnect socket
  else attest_and_reconnect socket.

(** The [catch] block. *)
Definition processWallet_catch (error : Exn) : Proc unit :=
  act (LogError "Failed processing wallet") ;;;
  act (Progress "Wallet Processing Failed" "failed") ;;;
  act IncFailed.

(** [async function processWallet(wallet, index, total, stats)]; the
    shared [stats] object is reached through the actions. *)
Definition processWallet (lib : Library)
           (wallet : Wallet) (index total : nat) : Proc unit :=
  try_catch (processWallet_try lib wallet index total) processWallet_catch.

(* ================================================================== *)
(** * The batch orchestrator: processWalletsInBatches *)
(* ================================================================== *)

(** The outside world of one run. *)
Record Env : Type := mkEnv {
  lib : Library;
  (** fate of attempt [k] of request [op] of the wallet at index [j] *)
  network : nat -> Op -> nat -> NetOutcome
}.

Record Stats : Type := mkStats {
  success : nat;
  failed : nat
}.

(** The two objects every workflow of a run shares with the others. *)
Record Shared : Type := mkShared {
  stats : Stats;
  wallets : list Wallet
}.

Fixpoint update {A} (n : nat) (f : A -> A) (l : list A) : list A :=
  match l, n with
  | [], _ => []
  | x :: rest, O => f x :: rest
  | x :: rest, S n' => x :: update n' f rest
  end.

(** Array [slice(from, to)]. *)
Definition slice {A} (from to : nat) (l : list A) : list A :=
  firstn (to - from) (skipn from l).

(** Effect of an action of the workflow of wallet [j]. *)
Definition apply_action (j : nat) (sh : Shared) (a : Action) : Shared :=
  match a with
  | IncSuccess =>
      mkShared (mkStats (S (success (stats sh))) (failed (stats sh))) (wallets sh)
  | IncFailed =>
      mkShared (mkStats (success (stats sh)) (S (failed (stats sh)))) (wallets sh)
  | SetPoint v =>
      mkShared (stats sh) (update j (fun w => set_point w v) (wallets sh))
  | LogVerbose _ | LogError _ | Progress _ _ => sh
  end.

Definition apply_actions (j : nat) (acts : list Action) (sh : Shared) : Shared :=
  fold_left (apply_action j) acts sh.

(** A promise returned by [processWallet]: suspended on a request, or
    settled (fulfilled or rejected). *)
Inductive Task : Type :=
| Waiting (op : Op) (run : Request) (k : option Response -> Proc unit)
| Settled (fulfilled : bool).

Definition is_settled (t : Task) : bool :=
  match t with
  | Settled _ => true
  | Waiting _ _ _ => false
  end.

(** Run a procedure up to its next [await] or its end (JavaScript never
    preempts this stretch): the resulting promise and the actions done. *)
Fixpoint run_sync (p : Proc unit) : Task * list Action :=
  match p with
  | Ret _ => (Settled true, [])
  | Throw _ => (Settled false, [])
  | Act a k => let '(t, done) := run_sync k in (t, a :: done)
  | Await op run k => (Waiting op run k, [])
  end.

(** What an observer of the run sees. *)
Inductive Event : Type :=
| EvBatch (i size : nat)        (* a group is cut: wallets i .. i+size-1 *)
| EvStart (j : nat)             (* processWallet is called for wallet j *)
| EvAct (j : nat) (a : Action)
| EvCall (j : nat) (op : Op)    (* wallet j suspends on a request *)
| EvSettle (j : nat) (fulfilled : bool).

Definition task_event (j : nat) (t : Task) : Event :=
  match t with
  | Waiting op _ _ => EvCall j op
  | Settled b => EvSettle j b
  end.

Definition segment_events (j : nat) (done : list Action) (t : Task) : list Event :=
  map (EvAct j) done ++ [task_event j t].

(** [batch.map((wallet, index) => processWallet(wallet, i + index, total,
    stats))]: each call runs at once up to its first [await]. *)
Fixpoint launch (env : Env) (total i : nat) (batch : list Wallet) (index : nat)
         (sh : Shared) : list Task * Shared * list Event :=
  match batch with
  | [] => ([], sh, [])
  | wallet :: rest =>
      let j := i + index in
      let '(t, done) := run_sync (processWallet (lib env) wallet j total) in
      let '(ts, sh', evs) :=
        launch env total i rest (S index) (apply_actions j done sh) in
      (t :: ts, sh', EvStart j :: segment_events j done t ++ evs)
  end.

(** The event loop hands a transport result to the suspended workflow at
    position [pos] of the group, which runs on to its next [await]. *)
Definition resume (env : Env) (i pos : nat) (ts : list Task) (sh : Shared)
  : option (list Task * Shared * list Event) :=
  match nth_error ts pos with
  | Some (Waiting op run k) =>
      let j := i + pos in
      let '(_, response) := run (network env j op) in
      let '(t, done) := run_sync (k response) in
      Some (update pos (fun _ => t) ts, apply_actions j done sh,
            segment_events j done t)
  | _ => None
  end.

(** A schedule is the order in which suspended workflows are resumed;
    it is decided by the timing of the network. *)
Fixpoint run_schedule (env : Env) (i : nat) (sched : list nat)
         (ts : list Task) (sh : Shared)
  : option (list Task * Shared * list Event) :=
  match sched with
  | [] => Some (ts, sh, [])
  | pos :: rest =>
      match resume env i pos ts sh with
      | Some (ts1, sh1, e1) =>
          match run_schedule env i rest ts1 sh1 with
          | Some (ts2, sh2, e2) => Some (ts2, sh2, e1 ++ e2)
          | None => None
          end
      | None => None
      end
  end.

(** [await Promise.allSettled(batch.map(...))] under a schedule; [None]
    when the schedule is not a complete run of the group. *)
Definition allSettled (env : Env) (total i : nat) (batch : list Wallet)
           (sched : list nat) (sh : Shared) : option (Shared * list Event) :=
  let '(ts, sh1, e1) := launch env total i batch 0 sh in
  match run_schedule env i sched ts sh1 with
  | Some (ts2, sh2, e2) =>
      if forallb is_settled ts2 then Some (sh2, e1 ++ e2) else None
  | None => None
  end.

(** The [for] loop of [processWalletsInBatches], one schedule per
    iteration. *)
Fixpoint batches_loop (env : Env) (total batchSize : nat)
         (scheds : list (list nat)) (i : nat) (sh : Shared)
  : option (Shared * list Event) :=
  if i <? total then
    match scheds with
    | [] => None
    | sched :: rest =>
        let batch := slice i (i + batchSize) (wallets sh) in
        match allSettled env total i batch sched sh with
        | Some (sh1, e1) =>
            match batches_loop env total batchSize rest (i + batchSize) sh1 with
            | Some (sh2, e2) =>
                Some (sh2, EvBatch i (List.length batch) :: e1 ++ e2)
            | None => None
            end
        | None => None
        end
    end
  else Some (sh, []).

Definition processWalletsInBatches (env : Env) (wallets : list Wallet)
           (batchSize : nat) (scheds : list (list nat))
  : option (Shared * list Event) :=
  let total := List.length wallets in
  let stats := mkStats 0 0 in
  batches_loop env total batchSize scheds 0 (mkShared stats wallets).

(* ================================================================== *)
(** * Vocabulary for the properties *)
(* ================================================================== *)

(** ** One request *)

(** Attempt [k] is rejected by axios. *)
Definition fails (net : nat -> NetOutcome) (config : Config) (k : nat) : Prop :=
  exists error, axios config (net k) = inl error.

(** Attempt [k] is rejected with [error.response.status === 500]. *)
Definition server_fault (net : nat -> NetOutcome) (config : Config) (k : nat) : bool :=
  match axios config (net k) with
  | inl error => is500 error
  | inr _ => false
  end.

(** The timer of the backoff after attempt [k]:
    [(backoffMs * Math.pow(1.5, k) / 1000) * 1000] in doubles. *)
Definition backoff_timer (backoffMs : Double.t) (k : nat) : Double.t :=
  Double.mul
    (Double.div (Double.mul backoffMs (pow15 k)) (Double.of_Z 1000))
    (Double.of_Z 1000).

(** The timer of [delay(2)]. *)
Definition two_seconds : Double.t :=
  Double.mul (Double.of_Z 2) (Double.of_Z 1000).

(** The timer set after the failed attempt [k]. *)
Definition wait_after (net : nat -> NetOutcome) (config : Config)
           (backoffMs : Double.t) (k : nat) : Double.t :=
  if server_fault net config k then backoff_timer backoffMs k
  else two_seconds.

Definition round (net : nat -> NetOutcome) (config : Config)
           (backoffMs : Double.t) (k : nat) : list ReqEvent :=
  [Attempt k; Sleep (wait_after net config backoffMs k)].

Definition outcome_at (net : nat -> NetOutcome) (config : Config) (m : nat)
  : option Response :=
  match axios config (net m) with
  | inr response => Some response
  | inl _ => None
  end.

(** Attempt [m] is where the loop stops: everything before it failed,
    and it succeeds or is the last one allowed. *)
Definition stops_at (net : nat -> NetOutcome) (config : Config)
           (retries m : nat) : Prop :=
  m < retries /\
  (forall k, k < m -> fails net config k) /\
  (outcome_at net config m <> None \/ m = retries - 1).

(** The timers that follow a server-fault failure, in order. *)
Fixpoint server_fault_sleeps (is_sf : nat -> bool) (evs : list ReqEvent)
  : list Double.t :=
  match evs with
  | [] => []
  | Attempt i :: rest =>
      match rest with
      | Sleep ms :: _ =>
          if is_sf i then ms :: server_fault_sleeps is_sf rest
          else server_fault_sleeps is_sf rest
      | _ => server_fault_sleeps is_sf rest
      end
  | Sleep _ :: rest => server_fault_sleeps is_sf rest
  end.

(** The reading under which the exponent counts server faults only: the
    timer after the [k]-th server fault (counting from 1) is
    [backoffMs * 1.5 ^ (k - 1)]. *)
Definition exponent_counts_server_faults (net : nat -> NetOutcome)
           (config : Config) (retries : nat) (backoffMs : Double.t) : Prop :=
  forall k ms,
    nth_error
      (server_fault_sleeps (server_fault net config)
         (fst (RequestHandler.makeRequest net config (Some retries) (Some backoffMs))))
      k = Some ms ->
    (Double.to_Q ms == Double.to_Q backoffMs * (3 # 2) ^ Z.of_nat k)%Q.

(** The reading under which the timer after attempt [i] lasts exactly
    [backoffMs * 1.5 ^ i] milliseconds. *)
Definition backoff_is_exact (net : nat -> NetOutcome) (config : Config)
           (retries : nat) (backoffMs : Double.t) : Prop :=
  forall i ms,
    nth_error
      (sleeps (fst (RequestHandler.makeRequest net config (Some retries)
                                               (Some backoffMs))))
      i = Some ms ->
    (Double.to_Q ms == Double.to_Q backoffMs * (3 # 2) ^ Z.of_nat i)%Q.

(** The number of attempts before [i] that failed otherwise than by a
    server fault. *)
Definition other_failures_before (net : nat -> NetOutcome) (config : Config)
           (i : nat) : nat :=
  List.length (filter (fun k => negb (server_fault net config k)) (seq 0 i)).

(** The number of server faults before attempt [i]. *)
Definition server_faults_before (net : nat -> NetOutcome) (config : Config)
           (i : nat) : nat :=
  List.length (filter (server_fault net config) (seq 0 i)).

(** The timer that follows attempt [i] in a trace, if any. *)
Fixpoint sleep_after (i : nat) (evs : list ReqEvent) : option Double.t :=
  match evs with
  | [] => None
  | Attempt k :: rest =>
      if k =? i then
        match rest with
        | Sleep ms :: _ => Some ms
        | _ => None
        end
      else sleep_after i rest
  | Sleep _ :: rest => sleep_after i rest
  end.

(** The trace is attempt [i], a timer, attempt [i + 1], a timer, and so
    on, and ends on an attempt. *)
Fixpoint alternates (i : nat) (evs : list ReqEvent) : bool :=
  match evs with
  | [Attempt k] => k =? i
  | Attempt k :: Sleep _ :: rest => (k =? i) && alternates (S i) rest
  | _ => false
  end.

(** The configuration of a session, and networks used as examples. *)
Definition session_config : Config :=
  {| method := "get"; url := "https://referralapi.layeredge.io/api/";
     timeout := 60000; validateStatus := Some (fun s => (s <? 500)%Z) |}.

Definition always_500 : nat -> NetOutcome :=
  fun _ => NetResp (mkResponse 500 JNull).

Definition timeout_then_500 : nat -> NetOutcome :=
  fun k => match k with
           | 0 => NetFail
           | _ => NetResp (mkResponse 500 JNull)
           end.

Definition always_down : nat -> NetOutcome := fun _ => NetFail.



(** ** Procedures *)

(** Every request a procedure may issue satisfies [P]. *)
Fixpoint all_requests {A} (P : Request -> Prop) (p : Proc A) : Prop :=
  match p with
  | Ret _ | Throw _ => True
  | Act _ k => all_requests P k
  | Await _ run k => P run /\ forall response, all_requests P (k response)
  end.

(** A request that never makes more than [n] attempts. *)
Definition at_most (n : nat) (run : Request) : Prop :=
  forall net, List.length (attempts (fst (run net))) <= n.

(** Every call among the steps made at most [n] attempts. *)
Definition calls_at_most (n : nat) (steps : list Step) : Prop :=
  Forall (fun s => match s with
                   | SCall _ evs => List.length (attempts evs) <= n
                   | SAct _ => True
                   end) steps.

(** ** One workflow on its own *)

(** What the request [op] of a session yields on the network [net], and
    what the operation makes of it. *)
Definition transport (this : L.t) (net : Op -> nat -> NetOutcome) (op : Op)
  : option Response :=
  snd (L.request_of this op (net op)).

Definition outcome (this : L.t) (net : Op -> nat -> NetOutcome) (op : Op)
  : Res JSValue :=
  L.result_of op (transport this net op).

Definition call (this : L.t) (net : Op -> nat -> NetOutcome) (op : Op) : Step :=
  SCall op (fst (L.request_of this op (net op))).

(** The operations that return whatever the transport result. *)
Definition never_throws (op : Op) : bool :=
  match op with
  | OpCheckInvite | OpDailyCheckIn | OpConnectNode | OpStopNode => true
  | _ => false
  end.

(** The steps of a workflow run on the network of wallet [j]. *)
Definition steps_of (env : Env) (total j : nat) (wallet : Wallet) : list Step :=
  fst (exec (network env j) (processWallet (lib env) wallet j total)).

(** The run of a workflow spelled out over the outcomes of its
    operations. *)
Definition attest_pre (this : L.t) (net : Op -> nat -> NetOutcome) : list Step :=
  [SAct (Progress "Performing Daily Check-in" "processing");
   call this net OpDailyCheckIn;
   SAct (Progress "Checking Node Status" "processing");
   call this net OpCheckNodeStatus].

Definition claim_steps (this : L.t) (net : Op -> nat -> NetOutcome) : list Step :=
  [SAct (Progress "Claiming Node Points" "processing");
   call this net OpStopNode].

Definition points_steps (this : L.t) (net : Op -> nat -> NetOutcome) : list Step :=
  [SAct (Progress "Reconnecting Node" "processing");
   call this net OpConnectNode;
   SAct (Progress "Checking Node Points" "processing");
   call this net OpCheckNodePoints].

Definition success_steps (points : JSValue) : list Step :=
  [SAct (SetPoint points);
   SAct (Progress "Wallet Processing Complete" "success");
   SAct IncSuccess].

Definition attest_run (this : L.t) (net : Op -> nat -> NetOutcome)
  : list Step * Res unit :=
  match outcome this net OpCheckNodeStatus with
  | inl e => (attest_pre this net, inl e)
  | inr isRunning =>
      let upto :=
        attest_pre this net
          ++ (if truthy isRunning then claim_steps this net else [])
          ++ points_steps this net in
      match outcome this net OpCheckNodePoints with
      | inl e => (upto, inl e)
      | inr points => (upto ++ success_steps points, inr tt)
      end
  end.

Definition check_steps (this : L.t) (net : Op -> nat -> NetOutcome) : list Step :=
  [SAct (LogVerbose "Processing wallet");
   SAct (Progress "Checking registration status" "processing");
   call this net OpIsWalletRegistered].

Definition invite_steps (this : L.t) (net : Op -> nat -> NetOutcome) : list Step :=
  [SAct (Progress "Registering wallet..." "processing");
   call this net OpCheckInvite].

Definition try_run (this : L.t) (net : Op -> nat -> NetOutcome)
  : list Step * Res unit :=
  match outcome this net OpIsWalletRegistered with
  | inl e => (check_steps this net, inl e)
  | inr isRegistered =>
      if is_false isRegistered then
        match outcome this net OpCheckInvite with
        | inl e => (check_steps this net ++ invite_steps this net, inl e)
        | inr isValidInvite =>
            if negb (truthy isValidInvite) then
              (check_steps this net ++ invite_steps this net
                 ++ [SAct (LogError "Invalid referral code, skipping...")],
               inr tt)
            else
              match outcome this net OpRegisterWallet with
              | inl e =>
                  (check_steps this net ++ invite_steps this net
                     ++ [call this net OpRegisterWallet],
                   inl e)
              | inr registered =>
                  if negb (truthy registered) then
                    (check_steps this net ++ invite_steps this net
                       ++ [call this net OpRegisterWallet;
                           SAct (LogError "Failed to register wallet, skipping...")],
                     inr tt)
                  else
                    (check_steps this net ++ invite_steps this net
                       ++ [call this net OpRegisterWallet]
                       ++ fst (attest_run this net),
                     snd (attest_run this net))
              end
        end
      else (check_steps this net ++ fst (attest_run this net),
            snd (attest_run this net))
  end.

Definition catch_steps : list Step :=
  [SAct (LogError "Failed processing wallet");
   SAct (Progress "Wallet Processing Failed" "failed");
   SAct IncFailed].

Definition caught (run : list Step * Res unit) : list Step * Res unit :=
  match snd run with
  | inl _ => (fst run ++ catch_steps, inr tt)
  | inr _ => run
  end.

Definition workflow_run (lib : Library) (wallet : Wallet)
           (net : Op -> nat -> NetOutcome) : list Step * Res unit :=
  match L.new lib (proxy wallet) (privateKey wallet) (refCode wallet) with
  | inl e => caught ([SAct (LogVerbose "Processing wallet")], inl e)
  | inr this => caught (try_run this net)
  end.

(** ** Sample inputs *)

Definition sample_derive : string -> option string :=
  fun key => if String.eqb key "" then None else Some ("0x" ++ key)%string.

(** Every key but the empty one is accepted; so is every proxy address
    that has something after its scheme. *)
Definition sample_lib : Library :=
  {| wallet_address := sample_derive;
     https_agent := fun p => negb (String.eqb p "http://");
     socks_agent := fun p =>
       negb (String.eqb p "socks4://" || String.eqb p "socks5://") |}.

Definition sample_wallet : Wallet :=
  {| address := "0xk1"; privateKey := "k1"; proxy := None;
     refCode := "ref"; point := JUndefined |}.

Definition sample_session : L.t :=
  {| L.refCode := "ref"; L.proxy := None; L.retryCount := 2;
     L.httpsAgent := None;
     L.axiosTimeout := 60000;
     L.axiosValidateStatus := fun status => (status <? 500)%Z;
     L.wallet := "0xk1" |}.

Definition ok_body : JSValue :=
  JObj [("data", JObj [("startTimestamp", JNum 1700000000);
                       ("nodePoints", JNum 42);
                       ("valid", JBool true)]);
        ("message", JStr "node action executed successfully")].

(** A JSON object that cannot be turned into text. *)
Definition unprintable : JSValue := JObj [("toString", JNum 1)].

(** Every request is answered 200 with a full body. *)
Definition net_ok : Op -> nat -> NetOutcome :=
  fun _ _ => NetResp (mkResponse 200 ok_body).

(** The wallet is unknown to the service and its referral code is
    refused. *)
Definition net_bad_invite : Op -> nat -> NetOutcome :=
  fun op _ =>
    match op with
    | OpIsWalletRegistered =>
        NetResp (mkResponse 404 (JObj [("message", JStr "user not found")]))
    | OpCheckInvite =>
        NetResp (mkResponse 200 (JObj [("data", JObj [("valid", JBool false)])]))
    | _ => NetResp (mkResponse 200 ok_body)
    end.

(** The node-status request is answered 404 with a body that has a
    message and no "data" field. *)
Definition no_data_body : JSValue := JObj [("message", JStr "node not found")].

Definition net_status_404 : Op -> nat -> NetOutcome :=
  fun op _ =>
    match op with
    | OpCheckNodeStatus => NetResp (mkResponse 404 no_data_body)
    | _ => NetResp (mkResponse 200 ok_body)
    end.

(** The node is reported stopped ([startTimestamp] is [null]). *)
Definition net_stopped : Op -> nat -> NetOutcome :=
  fun op _ =>
    match op with
    | OpCheckNodeStatus =>
        NetResp (mkResponse 200 (JObj [("data", JObj [("startTimestamp", JNull)])]))
    | _ => NetResp (mkResponse 200 ok_body)
    end.

(** The points of the wallet come as an object that cannot be turned
    into text. *)
Definition net_unprintable_points : Op -> nat -> NetOutcome :=
  fun op _ =>
    match op with
    | OpCheckNodePoints =>
        NetResp (mkResponse 200
                   (JObj [("data", JObj [("nodePoints", unprintable)])]))
    | _ => NetResp (mkResponse 200 ok_body)
    end.

(** The registration of an unknown wallet is refused with status 400
    and a body that cannot be turned into text. *)
Definition net_unprintable_refusal : Op -> nat -> NetOutcome :=
  fun op _ =>
    match op with
    | OpIsWalletRegistered =>
        NetResp (mkResponse 404 (JObj [("message", JStr "user not found")]))
    | OpRegisterWallet => NetResp (mkResponse 400 unprintable)
    | _ => NetResp (mkResponse 200 ok_body)
    end.

(** ** Many workflows *)

(** The actions of a workflow run on its own. *)
Definition solo_actions (env : Env) (total j : nat) (wallet : Wallet) : list Action :=
  actions (steps_of env total j wallet).

(** The reference run: the wallets from index [j] on are processed one
    after the other, each on its own. *)
Fixpoint run_in_order (env : Env) (total j : nat) (ws : list Wallet)
         (sh : Shared) : Shared :=
  match ws with
  | [] => sh
  | w :: rest =>
      run_in_order env total (S j) rest
                   (apply_actions j (solo_actions env total j w) sh)
  end.

(** The actions a suspended workflow still has to do. *)
Definition pending (net : Op -> nat -> NetOutcome) (t : Task) : list Action :=
  match t with
  | Settled _ => []
  | Waiting op run k => actions (fst (exec net (k (snd (run (net op))))))
  end.

(** The state reached when each workflow of a group, the first being
    wallet [j], does what it still has to do. *)
Fixpoint finish (env : Env) (j : nat) (ts : list Task) (sh : Shared) : Shared :=
  match ts with
  | [] => sh
  | t :: rest =>
      finish env (S j) rest (apply_actions j (pending (network env j) t) sh)
  end.

Definition count_success (acts : list Action) : nat :=
  List.length (filter (fun a => match a with IncSuccess => true | _ => false end) acts).

Definition count_failed (acts : list Action) : nat :=
  List.length (filter (fun a => match a with IncFailed => true | _ => false end) acts).

(** The value [wallet.point] holds after the actions, starting from [v]. *)
Definition point_after (acts : list Action) (v : JSValue) : JSValue :=
  fold_left (fun v a => match a with SetPoint v' => v' | _ => v end) acts v.

(** Sum of a count over the workflows of the wallets from index [j] on. *)
Fixpoint tally (count : list Action -> nat) (env : Env) (total j : nat)
         (ws : list Wallet) : nat :=
  match ws with
  | [] => 0
  | w :: rest =>
      count (solo_actions env total j w) + tally count env total (S j) rest
  end.

(** Each row with the point its own workflow leaves in it. *)
Fixpoint settle_points (env : Env) (total j : nat) (ws : list Wallet)
  : list Wallet :=
  match ws with
  | [] => []
  | w :: rest =>
      set_point w (point_after (solo_actions env total j w) (point w))
        :: settle_points env total (S j) rest
  end.

(** The number of requests a workflow still has to wait for. *)
Definition remaining (net : Op -> nat -> NetOutcome) (t : Task) : nat :=
  match t with
  | Settled _ => 0
  | Waiting op run k =>
      S (List.length (calls (fst (exec net (k (snd (run (net op))))))))
  end.

(** ** Reading the trace of a run *)

(** The wallet an event is about; the cut of a group is about none. *)
Definition event_index (e : Event) : option nat :=
  match e with
  | EvBatch _ _ => None
  | EvStart j | EvAct j _ | EvCall j _ | EvSettle j _ => Some j
  end.

(** The groups cut during a run: first index and size, in order. *)
Definition marks (trace : list Event) : list (nat * nat) :=
  flat_map (fun e => match e with
                     | EvBatch i size => [(i, size)]
                     | _ => []
                     end) trace.

(** [seg] is the whole life of the group of [n] wallets starting at
    [i]: it is about these wallets only, and each of them is started and
    settles in it. *)
Definition in_group (i n : nat) (seg : list Event) : Prop :=
  (forall e, In e seg -> exists j, event_index e = Some j /\ i <= j < i + n) /\
  (forall j, i <= j < i + n ->
             In (EvStart j) seg /\ exists b, In (EvSettle j b) seg).

(** A trace made of one group after the other: a group is cut, lives
    its whole life, and only then the next one is cut. *)
Inductive grouped (batchSize total : nat) : nat -> list Event -> Prop :=
| grouped_end (i : nat) :
    total <= i -> grouped batchSize total i []
| grouped_next (i : nat) (seg rest : list Event) :
    i < total ->
    in_group i (Nat.min batchSize (total - i)) seg ->
    grouped batchSize total (i + batchSize) rest ->
    grouped batchSize total i
            (EvBatch i (Nat.min batchSize (total - i)) :: seg ++ rest).

(** [ceil(n / b)] *)
Definition ceil_div (n b : nat) : nat := (n + b - 1) / b.

(** The groups of a list of [total] wallets cut by [batchSize]. *)
Fixpoint groups_from (batchSize total i count : nat) : list (nat * nat) :=
  match count with
  | O => []
  | S c =>
      (i, Nat.min batchSize (total - i))
        :: groups_from batchSize total (i + batchSize) c
  end.

(** Sample runs. *)
Definition env_bad_invite : Env := mkEnv sample_lib (fun _ => net_bad_invite).

Definition env_status_404 : Env := mkEnv sample_lib (fun _ => net_status_404).

(** Wallet 0 gets a node-status body without "data", wallet 1 is served
    well, wallet 2 has a refused referral code. *)
Definition env_mixed : Env :=
  mkEnv sample_lib
        (fun j => match j with
                  | 0 => net_status_404
                  | 1 => net_ok
                  | _ => net_bad_invite
                  end).

Definition three_wallets : list Wallet :=
  [sample_wallet; sample_wallet; sample_wallet].

(** Wallets 0 and 1 are resumed in turn until both settle, then
    wallet 2. *)
Definition mixed_schedule : list (list nat) :=
  [[0; 1; 0; 1; 0; 1; 1; 1; 1]; [0; 0]].

(* ================================================================== *)
(** * The rest of the program *)
(* ================================================================== *)

(** ** The spreadsheet and the driver *)

Definition MAX_CONCURRENT_WALLETS : nat := 10.

(** The file wallet.xlsx as the program meets it: the rows of its first
    sheet when [xlsx.readFile] succeeds, and whether [xlsx.writeFile]
    succeeds. *)
Record Disk : Type := mkDisk {
  sheet : option (list Wallet);
  writable : bool
}.

(** [async function readWalletsFromExcel()] *)
Definition readWalletsFromExcel (disk : Disk) : list Wallet :=
  match sheet disk with
  | Some rows => rows
  | None => []
  end.

(** The rows [updatePointsToExcel] builds. *)
Definition updatedData (wallets : list Wallet) : list Wallet :=
  map (fun wallet =>
         {| address := address wallet;
            privateKey := privateKey wallet;
            proxy := proxy wallet;
            refCode := refCode wallet;
            point := or_else (point wallet) (JNum 0) |})
      wallets.

(** [async function updatePointsToExcel(wallets)]: the file afterwards.
    A failure to read or to write is caught and only logged. *)
Definition updatePointsToExcel (disk : Disk) (wallets : list Wallet) : Disk :=
  match sheet disk with
  | Some _ =>
      if writable disk then mkDisk (Some (updatedData wallets)) (writable disk)
      else disk
  | None => disk
  end.

Module Driver.

(** How [run] ends: [process.exit(code)], or its last timer. *)
Inductive Ending : Type :=
| Exit (code : nat)
| Wait (timer : ReqEvent).

Record Pass : Type := mkPass {
  disk_after : Disk;
  summary : option Stats;   (* the counters of the summary line *)
  trace : list Event;
  ending : Ending
}.

(** The [try] block of [run], one schedule per group; [None] when the
    schedules are not a complete run. *)
Definition run_try (env : Env) (disk : Disk) (scheds : list (list nat))
  : option (Res Pass) :=
  let wallets := readWalletsFromExcel disk in
  if List.length wallets =? 0 then
    Some (inl (Failure "No wallets configured in Excel"))
  else
    match processWalletsInBatches env wallets MAX_CONCURRENT_WALLETS scheds with
    | Some (mkShared stats wallets, trace) =>
        (* the same array, its rows now mutated by the workflows *)
        Some (inr (mkPass (updatePointsToExcel disk wallets)
                          (Some stats) trace
                          (Wait (delay (Double.mul (Double.of_Z 120)
                                                   (Double.of_Z 60))))))
    | None => None
    end.

(** [async function run()]: what is thrown in the [try] block is caught,
    logged, and ends the process. *)
Definition run (env : Env) (disk : Disk) (scheds : list (list nat))
  : option Pass :=
  match run_try env disk scheds with
  | Some (inr pass) => Some pass
  | Some (inl error) => Some (mkPass disk None [] (Exit 1))
  | None => None
  end.

End Driver.

(** ** Vocabulary for the further properties *)

Definition Op_eqb (a b : Op) : bool :=
  match a, b with
  | OpIsWalletRegistered, OpIsWalletRegistered
  | OpCheckInvite, OpCheckInvite
  | OpRegisterWallet, OpRegisterWallet
  | OpDailyCheckIn, OpDailyCheckIn
  | OpCheckNodeStatus, OpCheckNodeStatus
  | OpConnectNode, OpConnectNode
  | OpStopNode, OpStopNode
  | OpCheckNodePoints, OpCheckNodePoints => true
  | _, _ => false
  end.

(** The order in which a workflow may request the operations. *)
Definition workflow_order : list Op :=
  [OpIsWalletRegistered; OpCheckInvite; OpRegisterWallet; OpDailyCheckIn;
   OpCheckNodeStatus; OpStopNode; OpConnectNode; OpCheckNodePoints].

(** [l1] is [l2] with some elements left out. *)
Fixpoint subseq (l1 l2 : list Op) {struct l2} : bool :=
  match l1, l2 with
  | [], _ => true
  | _ :: _, [] => false
  | x :: r1, y :: r2 => if Op_eqb x y then subseq r1 r2 else subseq l1 r2
  end.

(** The HTTP requests sent during the steps. *)
Definition total_attempts (steps : list Step) : nat :=
  list_sum (map (fun s => match s with
                          | SCall _ evs => List.length (attempts evs)
                          | SAct _ => 0
                          end) steps).

(** The fields of a row the program never writes. *)
Definition identity_of (w : Wallet) : string * string * option string * string :=
  (address w, privateKey w, proxy w, refCode w).

(** The node-status answer has a "data" object without a
    "startTimestamp" field. *)
Definition net_no_start_time : Op -> nat -> NetOutcome :=
  fun op _ =>
    match op with
    | OpCheckNodeStatus => NetResp (mkResponse 200 (JObj [("data", JObj [])]))
    | _ => NetResp (mkResponse 200 ok_body)
    end.

(** The three wallets of [env_mixed] in one group: wallet 0 is resumed
    until it settles, then wallet 1, then wallet 2. *)
Definition mixed_schedule_one_group : list (list nat) :=
  [[0; 0; 0; 1; 1; 1; 1; 1; 1; 2; 2]].

(** A readable and writable file holding the three sample wallets. *)
Definition sample_disk : Disk := mkDisk (Some three_wallets) true.

(* ================================================================== *)
(** * Arithmetic of the timers *)
(* ================================================================== *)


Lemma delay_2 : delay (Double.of_Z 2) = Sleep (Double.of_Z 2000).
Proof. vm_compute. reflexivity. Qed.

(** With the default base the backoff is exact up to attempt 29. *)
Lemma default_backoff_exact (i : nat) :
  i <= 29 ->
  (Double.to_Q (backoff_timer (Double.of_Z 2000) i)
   == 2000 * (3 # 2) ^ Z.of_nat i)%Q.
Proof.
  intros Hi.
  assert (H : forallb
                (fun i => Qeq_bool (Double.to_Q (backoff_timer (Double.of_Z 2000) i))
                                   (2000 * (3 # 2) ^ Z.of_nat i))
                (seq 0 30) = true)
    by (vm_compute; reflexivity).
  apply Qeq_bool_iff.
  apply (proj1 (forallb_forall _ _) H).
  apply in_seq. lia.
Qed.

(* ================================================================== *)
(** * Properties of the retry loop *)
(* ================================================================== *)

Section RetryLoop.

Variable net : nat -> NetOutcome.
Variable config : Config.
Variable retries : nat.
Variable backoffMs : Double.t.

Lemma loop_unfold_fail (fuel i : nat) (error : AxiosError) :
  i < retries -> i <> retries - 1 ->
  axios config (net i) = inl error ->
  RequestHandler.loop net config retries backoffMs (S fuel) i =
  (round net config backoffMs i ++ fst (RequestHandler.loop net config retries backoffMs fuel (S i)),
   snd (RequestHandler.loop net config retries backoffMs fuel (S i))).
Proof.
  intros Hlt Hlast Hax. cbn [RequestHandler.loop].
  apply Nat.ltb_lt in Hlt. rewrite Hlt, Hax.
  apply Nat.eqb_neq in Hlast. rewrite Hlast.
  unfold round, wait_after, server_fault, backoff_timer, two_seconds, delay.
  rewrite Hax.
  destruct (is500 error);
    destruct (RequestHandler.loop net config retries backoffMs fuel (S i));
    cbn [fst snd app]; reflexivity.
Qed.

Lemma loop_unfold_stop (fuel i : nat) :
  i < retries ->
  (outcome_at net config i <> None \/ i = retries - 1) ->
  RequestHandler.loop net config retries backoffMs (S fuel) i =
  ([Attempt i], outcome_at net config i).
Proof.
  intros Hlt Hstop. cbn [RequestHandler.loop].
  apply Nat.ltb_lt in Hlt. rewrite Hlt. unfold outcome_at in *.
  destruct (axios config (net i)) as [error | response]; [| reflexivity].
  destruct Hstop as [H | H]; [congruence |].
  apply Nat.eqb_eq in H. rewrite H.
  destruct (is500 error); reflexivity.
Qed.

(** The loop in closed form: every failed attempt before the stopping
    one is followed by its timer, and nothing follows the stopping one. *)
Lemma loop_closed_form (m : nat) :
  stops_at net config retries m ->
  forall fuel i, i <= m -> retries - i <= fuel ->
    RequestHandler.loop net config retries backoffMs fuel i =
    (flat_map (round net config backoffMs) (seq i (m - i)) ++ [Attempt m], outcome_at net config m).
Proof.
  intros (Hm & Hfail & Hstop) fuel.
  induction fuel as [| fuel IH]; intros i Hi Hfuel; [lia |].
  destruct (Nat.eq_dec i m) as [-> | Hne].
  - rewrite Nat.sub_diag. cbn [seq flat_map app].
    apply loop_unfold_stop; assumption.
  - destruct (Hfail i ltac:(lia)) as [error Herr].
    rewrite (loop_unfold_fail fuel i error) by (lia || assumption).
    rewrite (IH (S i)) by lia. cbn [fst snd].
    replace (m - i) with (S (m - S i)) by lia.
    cbn [seq flat_map]. rewrite <- app_assoc. reflexivity.
Qed.

Lemma makeRequest_closed_form (m : nat) :
  stops_at net config retries m ->
  RequestHandler.makeRequest net config (Some retries) (Some backoffMs) =
  (flat_map (round net config backoffMs) (seq 0 m) ++ [Attempt m], outcome_at net config m).
Proof.
  intros H. unfold RequestHandler.makeRequest.
  rewrite (loop_closed_form m H retries 0) by lia.
  rewrite Nat.sub_0_r. reflexivity.
Qed.

(** With a budget of at least one attempt the loop does stop somewhere. *)
Lemma stops_somewhere : 1 <= retries -> exists m, stops_at net config retries m.
Proof.
  intros Hr.
  assert (H : forall n, n < retries ->
            (exists m, m <= n /\ (forall k, k < m -> fails net config k) /\
                       outcome_at net config m <> None) \/
            (forall k, k <= n -> fails net config k)).
  { induction n as [| n IH]; intros Hn.
    - unfold outcome_at, fails.
      destruct (axios config (net 0)) as [error | response] eqn:E.
      + right. intros k Hk. replace k with 0 by lia. eauto.
      + left. exists 0. repeat split; [lia | intros; lia |].
        rewrite E. discriminate.
    - destruct (IH ltac:(lia)) as [(m & Hm & Hf & Ho) | Hall].
      + left. exists m. repeat split; [lia | assumption | assumption].
      + unfold outcome_at, fails.
        destruct (axios config (net (S n))) as [error | response] eqn:E.
        * right. intros k Hk.
          destruct (Nat.eq_dec k (S n)) as [-> | ?]; [eauto | apply Hall; lia].
        * left. exists (S n). repeat split; [lia | |].
          -- intros k Hk. apply Hall. lia.
          -- rewrite E. discriminate. }
  destruct (H (retries - 1) ltac:(lia)) as [(m & Hm & Hf & Ho) | Hall].
  - exists m. repeat split; [lia | assumption | left; assumption].
  - exists (retries - 1). repeat split; [lia | | right; reflexivity].
    intros k Hk. apply Hall. lia.
Qed.


(** The stopping attempt is unique. *)
Lemma stops_at_unique (m m' : nat) :
  stops_at net config retries m -> stops_at net config retries m' -> m = m'.
Proof.
  assert (H : forall a b, stops_at net config retries a ->
                          stops_at net config retries b -> ~ a < b).
  { intros a b (Ha & _ & Hsa) (Hb & Hfb & _) Hlt.
    destruct Hsa as [Ho | ->]; [| lia].
    apply Ho. destruct (Hfb a Hlt) as [error He].
    unfold outcome_at. rewrite He. reflexivity. }
  intros Hm Hm'.
  pose proof (H m m' Hm Hm'). pose proof (H m' m Hm' Hm). lia.
Qed.

End RetryLoop.

(** ** Reading a trace made of rounds *)

Section Rounds.

Variable w : nat -> Double.t.

Lemma rounds_attempts (l : list nat) (m : nat) :
  attempts (flat_map (fun k => [Attempt k; Sleep (w k)]) l ++ [Attempt m]) = l ++ [m].
Proof.
  induction l as [| k l IH]; [reflexivity |].
  cbn [flat_map app attempts] in *. f_equal. exact IH.
Qed.

Lemma rounds_sleeps (l : list nat) (m : nat) :
  sleeps (flat_map (fun k => [Attempt k; Sleep (w k)]) l ++ [Attempt m]) = map w l.
Proof.
  induction l as [| k l IH]; [reflexivity |].
  cbn [flat_map app sleeps map] in *. f_equal. exact IH.
Qed.

Lemma rounds_last (l : list nat) (m : nat) (d : ReqEvent) :
  last (flat_map (fun k => [Attempt k; Sleep (w k)]) l ++ [Attempt m]) d = Attempt m.
Proof. apply last_last. Qed.

(** A timer that directly follows attempt [i] is the timer of round [i]. *)
Lemma rounds_adjacent (l : list nat) (m pos i : nat) (ms : Double.t) :
  nth_error (flat_map (fun k => [Attempt k; Sleep (w k)]) l ++ [Attempt m]) pos = Some (Attempt i) ->
  nth_error (flat_map (fun k => [Attempt k; Sleep (w k)]) l ++ [Attempt m]) (S pos) = Some (Sleep ms) ->
  In i l /\ ms = w i.
Proof.
  revert pos. induction l as [| k l IH]; intros pos H1 H2.
  - destruct pos as [| pos]; cbn in H1, H2.
    + discriminate.
    + destruct pos; discriminate.
  - destruct pos as [| [| pos]]; cbn in H1, H2.
    + injection H1 as ->. injection H2 as ->. split; [left |]; reflexivity.
    + discriminate.
    + destruct (IH pos H1 H2) as [Hin Hw]. split; [right |]; assumption.
Qed.



(** Consecutive rounds alternate attempts and timers. *)
Lemma rounds_alternate (n s : nat) :
  alternates s (flat_map (fun k => [Attempt k; Sleep (w k)]) (seq s n)
                ++ [Attempt (s + n)]) = true.
Proof.
  revert s. induction n as [| n IH]; intros s.
  - cbn. rewrite Nat.add_0_r. apply Nat.eqb_refl.
  - replace (s + S n) with (S s + n) by lia.
    cbn [seq flat_map app alternates].
    rewrite Nat.eqb_refl, IH. reflexivity.
Qed.

(** The timer that follows attempt [i] of consecutive rounds. *)
Lemma rounds_sleep_after (n s i : nat) :
  sleep_after i (flat_map (fun k => [Attempt k; Sleep (w k)]) (seq s n)
                 ++ [Attempt (s + n)]) =
  if (s <=? i) && (i <? s + n) then Some (w i) else None.
Proof.
  revert s. induction n as [| n IH]; intros s.
  - cbn [seq flat_map app sleep_after].
    destruct (s + 0 =? i); destruct (s <=? i) eqn:E1; destruct (i <? s + 0) eqn:E2;
      try reflexivity.
    all: apply Nat.leb_le in E1; apply Nat.ltb_lt in E2; lia.
  - replace (s + S n) with (S s + n) by lia.
    cbn [seq flat_map app sleep_after].
    destruct (s =? i) eqn:E.
    + apply Nat.eqb_eq in E. subst i.
      rewrite Nat.leb_refl.
      replace (s <? S s + n) with true by (symmetry; apply Nat.ltb_lt; lia).
      reflexivity.
    + apply Nat.eqb_neq in E. rewrite IH.
      destruct (S s <=? i) eqn:E1; destruct (s <=? i) eqn:E2; try reflexivity.
      * apply Nat.leb_le in E1. apply Nat.leb_gt in E2. lia.
      * apply Nat.leb_gt in E1. apply Nat.leb_le in E2. lia.
Qed.

End Rounds.

(** The events of a request are those of a closed form, unless the
    budget is empty. *)
Lemma makeRequest_shape (net : nat -> NetOutcome) (config : Config)
      (retries : nat) (backoffMs : Double.t) :
  (retries = 0 /\
   RequestHandler.makeRequest net config (Some retries) (Some backoffMs) = ([], None)) \/
  (exists m, stops_at net config retries m /\
   RequestHandler.makeRequest net config (Some retries) (Some backoffMs) =
   (flat_map (round net config backoffMs) (seq 0 m) ++ [Attempt m],
    outcome_at net config m)).
Proof.
  destruct retries as [| r].
  - left. split; reflexivity.
  - right. destruct (stops_somewhere net config (S r) ltac:(lia)) as [m Hm].
    exists m. split; [assumption |].
    apply makeRequest_closed_form. assumption.
Qed.

Lemma length_attempts_loop (net : nat -> NetOutcome) (config : Config)
      (retries : nat) (backoffMs : Double.t) (fuel i : nat) :
  List.length (attempts (fst (RequestHandler.loop net config retries backoffMs fuel i)))
  <= fuel.
Proof.
  revert i. induction fuel as [| fuel IH]; intros i; [cbn; lia |].
  cbn [RequestHandler.loop].
  destruct (i <? retries); [| cbn; lia].
  destruct (axios config (net i)) as [error | response]; [| cbn; lia].
  specialize (IH (S i)).
  destruct (is500 error), (i =? retries - 1); try (cbn; lia);
    destruct (RequestHandler.loop net config retries backoffMs fuel (S i));
    cbn in *; lia.
Qed.

(** The timers that follow a server fault are those of the rounds of
    the server faults. *)
Lemma server_fault_sleeps_rounds (is_sf : nat -> bool) (w : nat -> Double.t)
      (l : list nat) (m : nat) :
  server_fault_sleeps is_sf
    (flat_map (fun k => [Attempt k; Sleep (w k)]) l ++ [Attempt m]) =
  map w (filter is_sf l).
Proof.
  induction l as [| k l IH]; [reflexivity |].
  cbn [flat_map app server_fault_sleeps filter].
  destruct (is_sf k); cbn [server_fault_sleeps map]; rewrite IH; reflexivity.
Qed.

(** The [k]-th element that passes a filter over consecutive numbers has
    [k] passing elements before it. *)
Lemma nth_error_filter_seq (f : nat -> bool) (n s k i : nat) :
  nth_error (filter f (seq s n)) k = Some i ->
  f i = true /\ s <= i < s + n /\
  List.length (filter f (seq s (i - s))) = k.
Proof.
  revert s k. induction n as [| n IH]; intros s k H.
  - destruct k; discriminate H.
  - cbn [seq filter] in H. destruct (f s) eqn:E.
    + destruct k as [| k].
      * injection H as <-. rewrite Nat.sub_diag.
        repeat split; [assumption | lia | lia].
      * cbn [nth_error] in H.
        destruct (IH (S s) k H) as (Hf & Hr & Hl).
        repeat split; [assumption | lia | lia |].
        replace (i - s) with (S (i - S s)) by lia.
        cbn [seq filter]. rewrite E. cbn [List.length]. rewrite Hl. reflexivity.
    + destruct (IH (S s) k H) as (Hf & Hr & Hl).
      repeat split; [assumption | lia | lia |].
      replace (i - s) with (S (i - S s)) by lia.
      cbn [seq filter]. rewrite E. exact Hl.
Qed.

(** Every attempt before [i] is a server fault or another failure. *)
Lemma failures_before (net : nat -> NetOutcome) (config : Config) (i : nat) :
  i = server_faults_before net config i + other_failures_before net config i.
Proof.
  unfold server_faults_before, other_failures_before.
  rewrite filter_length, length_seq. reflexivity.
Qed.

Lemma no_other_failure_before (net : nat -> NetOutcome) (config : Config) (i : nat) :
  (forall j, j < i -> server_fault net config j = true) ->
  other_failures_before net config i = 0.
Proof.
  intros H. unfold other_failures_before.
  assert (E : forall l, (forall j, In j l -> server_fault net config j = true) ->
                        filter (fun k => negb (server_fault net config k)) l = []).
  { induction l as [| a l IH]; intros Hl; [reflexivity |].
    cbn [filter]. rewrite (Hl a (or_introl eq_refl)). cbn [negb].
    apply IH. intros j Hj. apply Hl. right. assumption. }
  rewrite E; [reflexivity |].
  intros j Hj. apply in_seq in Hj. apply H. lia.
Qed.

(* ================================================================== *)
(** * Properties of RequestHandler.makeRequest *)
(* ================================================================== *)

Lemma flat_map_ext_on {A B} (f g : A -> list B) (l : list A) :
  (forall a, In a l -> f a = g a) -> flat_map f l = flat_map g l.
Proof.
  induction l as [| a l IH]; intros H; [reflexivity |].
  cbn [flat_map]. rewrite (H a (or_introl eq_refl)), IH; [reflexivity |].
  intros b Hb. apply H. right. assumption.
Qed.

Lemma server_fault_fails (net : nat -> NetOutcome) (config : Config) (k : nat) :
  server_fault net config k = true -> fails net config k.
Proof.
  unfold server_fault, fails.
  destruct (axios config (net k)) as [error | response]; [eauto | discriminate].
Qed.

Lemma fails_no_outcome (net : nat -> NetOutcome) (config : Config) (k : nat) :
  fails net config k -> outcome_at net config k = None.
Proof.
  unfold fails, outcome_at. intros [error ->]. reflexivity.
Qed.

(** The trace when every attempt fails. *)
Lemma all_fail_trace (net : nat -> NetOutcome) (config : Config)
      (r : nat) (backoffMs : Double.t) :
  1 <= r ->
  (forall i, i < r -> fails net config i) ->
  RequestHandler.makeRequest net config (Some r) (Some backoffMs) =
  (flat_map (round net config backoffMs) (seq 0 (r - 1)) ++ [Attempt (r - 1)],
   None).
Proof.
  intros Hr Hall.
  assert (Hstop : stops_at net config r (r - 1)).
  { repeat split; [lia | | right; reflexivity].
    intros k Hk. apply Hall. lia. }
  rewrite (makeRequest_closed_form _ _ _ _ _ Hstop).
  rewrite (fails_no_outcome net config (r - 1)) by (apply Hall; lia).
  reflexivity.
Qed.

(** C4, as stated, fails: the timer is computed in double precision,
    dividing by 1000 and multiplying by 1000 again.  With a base of
    1001 ms the timer after the first server fault is
    [(1001 / 1000) * 1000 = 1000.9999999999999], not 1001. *)
Lemma backoff_not_exact :
  fst (RequestHandler.makeRequest always_500 session_config (Some 2)
                                  (Some (Double.of_Z 1001)))
  = [Attempt 0; Sleep (S754_finite false 8804889115230207 (-43)); Attempt 1] /\
  Double.of_Z 1001 = S754_finite false 8804889115230208 (-43) /\
  ~ backoff_is_exact always_500 session_config 2 (Double.of_Z 1001).
Proof.
  split; [vm_compute; reflexivity |].
  split; [vm_compute; reflexivity |].
  intros H.
  specialize (H 0 (S754_finite false 8804889115230207 (-43)) eq_refl).
  vm_compute in H. discriminate H.
Qed.

(** C4, amended.  For every retry budget [r >= 1], when every attempt is
    answered with status 500, [makeRequest] makes exactly the [r]
    attempts 0 .. r - 1, each but the last followed by one timer;
    nothing follows the last attempt and the result is [null].  The
    timer after attempt [i] (for [i <= 33], where [1.5 ^ i] is a double)
    is set to the double [(backoffMs * 1.5 ^ i / 1000) * 1000], every
    operation rounded; with the default base of 2000 ms and [i <= 29]
    this is exactly [2000 * 1.5 ^ i]. *)
Theorem server_fault_schedule (net : nat -> NetOutcome) (config : Config)
        (r : nat) (backoffMs : Double.t) :
  1 <= r ->
  (forall i, i < r -> server_fault net config i = true) ->
  let run := RequestHandler.makeRequest net config (Some r) (Some backoffMs) in
  snd run = None /\
  alternates 0 (fst run) = true /\
  attempts (fst run) = seq 0 r /\
  List.length (sleeps (fst run)) = r - 1 /\
  last (fst run) (Sleep (Double.of_Z 0)) = Attempt (r - 1) /\
  (forall i, i < r - 1 -> i <= 33 ->
     nth_error (sleeps (fst run)) i = Some (backoff_timer backoffMs i) /\
     sleep_after i (fst run) = Some (backoff_timer backoffMs i)) /\
  (backoffMs = Double.of_Z 2000 ->
   forall i, i < r - 1 -> i <= 29 ->
     exists ms, nth_error (sleeps (fst run)) i = Some ms /\
                (Double.to_Q ms == 2000 * (3 # 2) ^ Z.of_nat i)%Q).
Proof.
  intros Hr Hsf run.
  assert (Hrun : run =
            (flat_map (fun i => [Attempt i; Sleep (backoff_timer backoffMs i)])
                      (seq 0 (r - 1)) ++ [Attempt (r - 1)], None)).
  { unfold run. rewrite all_fail_trace
      by (assumption || (intros; apply server_fault_fails, Hsf; assumption)).
    f_equal. f_equal. apply flat_map_ext_on. intros k Hk.
    apply in_seq in Hk. unfold round, wait_after.
    rewrite Hsf by lia. reflexivity. }
  assert (Hnth : forall i, i < r - 1 ->
            nth_error (sleeps (fst run)) i = Some (backoff_timer backoffMs i)).
  { intros i Hi. rewrite Hrun. cbn [fst]. rewrite rounds_sleeps.
    rewrite nth_error_map, nth_error_seq.
    apply Nat.ltb_lt in Hi. rewrite Hi. reflexivity. }
  split; [rewrite Hrun; reflexivity |].
  split.
  { rewrite Hrun. cbn [fst].
    apply (rounds_alternate (backoff_timer backoffMs) (r - 1) 0). }
  split.
  { rewrite Hrun. cbn [fst]. rewrite rounds_attempts.
    transitivity (seq 0 (S (r - 1))); [rewrite seq_S; reflexivity | f_equal; lia]. }
  split.
  { rewrite Hrun. cbn [fst]. rewrite rounds_sleeps, length_map, length_seq.
    reflexivity. }
  split.
  { rewrite Hrun. cbn [fst]. apply rounds_last. }
  split.
  { intros i Hi _. split; [apply Hnth; assumption |].
    rewrite Hrun. cbn [fst].
    pose proof (rounds_sleep_after (backoff_timer backoffMs) (r - 1) 0 i) as Hs.
    cbn [Nat.leb andb Nat.add] in Hs. rewrite Hs.
    apply Nat.ltb_lt in Hi. rewrite Hi. reflexivity. }
  intros -> i Hi Hi29. exists (backoff_timer (Double.of_Z 2000) i).
  split; [apply Hnth; assumption | apply default_backoff_exact; assumption].
Qed.

Lemma server_fault_schedule_witness :
  1 <= 3 /\
  (forall i, i < 3 -> server_fault always_500 session_config i = true) /\
  attempts (fst (RequestHandler.makeRequest always_500 session_config (Some 3)
                                            (Some (Double.of_Z 2000))))
  = [0; 1; 2] /\
  sleeps (fst (RequestHandler.makeRequest always_500 session_config (Some 3)
                                          (Some (Double.of_Z 2000))))
  = [Double.of_Z 2000; Double.of_Z 3000].
Proof.
  split; [lia |]. split; [intros i _; reflexivity |].
  destruct (server_fault_schedule always_500 session_config 3 (Double.of_Z 2000))
    as (_ & _ & H & _).
  - lia.
  - intros i _. reflexivity.
  - split; [exact H | vm_compute; reflexivity].
Defined.

(** What the constructor returns when it returns. *)
Lemma new_session (lib : Library) (proxy : option string)
      (privateKey refCode : string) (this : L.t) :
  L.new lib proxy privateKey refCode = inr this ->
  exists agent address,
    httpsAgent_entry lib proxy = inr agent /\
    wallet_address lib privateKey = Some address /\
    this = {| L.refCode := refCode;
              L.proxy := proxy;
              L.retryCount := 2;
              L.httpsAgent := agent;
              L.axiosTimeout := 60000;
              L.axiosValidateStatus := fun status => (status <? 500)%Z;
              L.wallet := address |}.
Proof.
  unfold L.new. destruct (httpsAgent_entry lib proxy) as [e | agent];
    [discriminate |].
  cbn [bindR]. destruct (wallet_address lib privateKey) as [address |];
    [| discriminate].
  intros [= <-]. exists agent, address. repeat split.
Qed.

(** Requests of a session are validated as in [session_config]. *)
Lemma finalConfig_validateStatus (lib : Library)
      (proxy : option string) (privateKey refCode method url : string)
      (this : L.t) :
  L.new lib proxy privateKey refCode = inr this ->
  validateStatus (L.finalConfig this method url) = validateStatus session_config.
Proof.
  intros H. apply new_session in H. destruct H as (agent & address & _ & _ & ->).
  reflexivity.
Qed.




(** C3, as stated, fails: after a network error on the first attempt,
    the first server fault (on the second attempt) is followed by a
    timer of 2000 * 1.5 ^ 1 = 3000 ms, not 2000 * 1.5 ^ 0 = 2000 ms. *)
Lemma exponent_counts_server_faults_fails :
  fst (RequestHandler.makeRequest timeout_then_500 session_config (Some 3)
                                  (Some (Double.of_Z 2000)))
  = [Attempt 0; Sleep (Double.of_Z 2000); Attempt 1; Sleep (Double.of_Z 3000);
     Attempt 2] /\
  ~ exponent_counts_server_faults timeout_then_500 session_config 3
      (Double.of_Z 2000).
Proof.
  split; [vm_compute; reflexivity |].
  intros H. specialize (H 0 (Double.of_Z 3000) eq_refl).
  vm_compute in H. discriminate H.
Qed.

(** C3, amended.  The exponent of the server-fault backoff is the index
    of the attempt in the loop: the timer after a server fault on
    attempt [i] (counted from 0, [i <= 33]) is set to the double
    [(backoffMs * 1.5 ^ i / 1000) * 1000].  The index counts every
    earlier attempt whatever its failure: the [k]-th timer of a server
    fault (counted from 0) follows the attempt [i] that has [k] server
    faults and [i - k] other failures before it, so that the exponent is
    [k] plus the number of earlier failures of another kind, and is [k]
    when no such failure came earlier. *)
Theorem backoff_exponent_is_attempt_index (net : nat -> NetOutcome)
        (config : Config) (retries : nat) (backoffMs : Double.t) :
  let run := RequestHandler.makeRequest net config (Some retries) (Some backoffMs) in
  (forall pos i ms,
     nth_error (fst run) pos = Some (Attempt i) ->
     nth_error (fst run) (S pos) = Some (Sleep ms) ->
     server_fault net config i = true ->
     i <= 33 ->
     ms = backoff_timer backoffMs i) /\
  (forall k ms,
     nth_error (server_fault_sleeps (server_fault net config) (fst run)) k
     = Some ms ->
     exists i,
       server_fault net config i = true /\
       server_faults_before net config i = k /\
       i = k + other_failures_before net config i /\
       sleep_after i (fst run) = Some ms /\
       (i <= 33 -> ms = backoff_timer backoffMs i) /\
       ((forall j, j < i -> server_fault net config j = true) -> i = k)).
Proof.
  intros run. unfold run.
  destruct (makeRequest_shape net config retries backoffMs)
    as [[-> Hrun] | (m & (Hm & Hfail & Hstop) & Hrun)];
    rewrite Hrun; cbn [fst snd].
  - split.
    + intros [| pos] i ms H; discriminate.
    + intros [| k] ms H; discriminate.
  - split.
    + intros pos i ms H1 H2 Hsf _.
      destruct (rounds_adjacent _ _ _ _ _ _ H1 H2) as [_ ->].
      unfold wait_after. rewrite Hsf. reflexivity.
    + intros k ms. unfold round.
      rewrite server_fault_sleeps_rounds, nth_error_map.
      destruct (nth_error (filter (server_fault net config) (seq 0 m)) k)
        as [i |] eqn:Hnth; [| discriminate].
      cbn [option_map]. intros [= <-].
      apply nth_error_filter_seq in Hnth.
      destruct Hnth as (Hsf & Hrange & Hlen).
      rewrite Nat.sub_0_r in Hlen.
      pose proof (failures_before net config i) as Hsum.
      exists i. split; [assumption |].
      split; [exact Hlen |].
      split; [unfold server_faults_before in Hsum; lia |].
      split.
      { pose proof (rounds_sleep_after (wait_after net config backoffMs) m 0 i) as Hs.
        cbn [Nat.leb andb Nat.add] in Hs. rewrite Hs.
        replace (i <? m) with true by (symmetry; apply Nat.ltb_lt; lia).
        reflexivity. }
      split; [intros _; unfold wait_after; rewrite Hsf; reflexivity |].
      intros Hall.
      pose proof (no_other_failure_before net config i Hall).
      unfold server_faults_before in Hsum. lia.
Qed.

Lemma backoff_exponent_is_attempt_index_witness :
  nth_error
    (server_fault_sleeps (server_fault timeout_then_500 session_config)
       (fst (RequestHandler.makeRequest timeout_then_500 session_config (Some 3)
                                        (Some (Double.of_Z 2000))))) 0
  = Some (Double.of_Z 3000) /\
  exists i,
    i = 1 /\
    server_fault timeout_then_500 session_config i = true /\
    server_faults_before timeout_then_500 session_config i = 0 /\
    i = 0 + other_failures_before timeout_then_500 session_config i /\
    Double.of_Z 3000 = backoff_timer (Double.of_Z 2000) i.
Proof.
  assert (H : nth_error
                (server_fault_sleeps (server_fault timeout_then_500 session_config)
                   (fst (RequestHandler.makeRequest timeout_then_500 session_config
                           (Some 3) (Some (Double.of_Z 2000))))) 0
              = Some (Double.of_Z 3000))
    by (vm_compute; reflexivity).
  split; [exact H |].
  destruct (proj2 (backoff_exponent_is_attempt_index timeout_then_500
                     session_config 3 (Double.of_Z 2000)) 0 (Double.of_Z 3000) H)
    as (i & H1 & H2 & H3 & H4 & H5 & _).
  assert (Hi : i = 1).
  { destruct i as [| [| [| i]]]; vm_compute in H4;
      [discriminate H4 | reflexivity | discriminate H4 | discriminate H4]. }
  exists i. repeat split; try assumption.
  apply H5. lia.
Defined.


(* ================================================================== *)
(** * Running a procedure on its own *)
(* ================================================================== *)

Lemma exec_bind {A B} (net : Op -> nat -> NetOutcome) (p : Proc A)
      (f : A -> Proc B) :
  exec net (bind p f) =
  match exec net p with
  | (s1, inl e) => (s1, inl e)
  | (s1, inr a) => (s1 ++ fst (exec net (f a)), snd (exec net (f a)))
  end.
Proof.
  induction p as [a | e | a k IH | op run k IH]; cbn [bind exec].
  - destruct (exec net (f a)); reflexivity.
  - reflexivity.
  - rewrite IH. destruct (exec net k) as [s [e | a']]; reflexivity.
  - destruct (run (net op)) as [evs response]. rewrite IH.
    destruct (exec net (k response)) as [s [e | a]]; reflexivity.
Qed.

Lemma exec_try_catch {A} (net : Op -> nat -> NetOutcome) (p : Proc A)
      (h : Exn -> Proc A) :
  exec net (try_catch p h) =
  match exec net p with
  | (s1, inl e) => (s1 ++ fst (exec net (h e)), snd (exec net (h e)))
  | (s1, inr a) => (s1, inr a)
  end.
Proof.
  induction p as [a | e | a k IH | op run k IH]; cbn [try_catch exec].
  - reflexivity.
  - destruct (exec net (h e)); reflexivity.
  - rewrite IH. destruct (exec net k) as [s [e | a']]; reflexivity.
  - destruct (run (net op)) as [evs response]. rewrite IH.
    destruct (exec net (k response)) as [s [e | a]]; reflexivity.
Qed.

Lemma exec_act {A} (net : Op -> nat -> NetOutcome) (a : Action) (k : Proc A) :
  exec net (act a ;;; k) = (SAct a :: fst (exec net k), snd (exec net k)).
Proof. cbn. destruct (exec net k). reflexivity. Qed.

Lemma exec_operation (this : L.t) (net : Op -> nat -> NetOutcome) (op : Op) :
  exec net (L.operation this op) = ([call this net op], outcome this net op).
Proof.
  unfold call, outcome, transport.
  destruct op; cbn [L.operation L.request_of L.result_of];
    match goal with
    | |- exec _ (?f this) = _ => unfold f, L.makeRequest
    end;
    cbn [bind exec];
    match goal with
    | |- context [L.request ?t ?m ?u ?n] => destruct (L.request t m u n) as [evs response]
    end;
    cbn [fst snd];
    match goal with
    | |- context [lift ?r] => destruct r
    end; reflexivity.
Qed.

(** ** Reading properties *)

Lemma get_opt_total (v : JSValue) (name : string) :
  exists x, get_opt v name = inr x.
Proof. destruct v; cbn; eauto. Qed.

Lemma get_truthy (v : JSValue) (name : string) :
  truthy v = true -> exists x, get v name = inr x.
Proof. destruct v; cbn; intros H; try discriminate; eauto. Qed.

Lemma get_truthy_opt (v : JSValue) (name : string) :
  truthy v = true -> get_opt v name = get v name.
Proof. destruct v; cbn; intros H; try discriminate; reflexivity. Qed.

Lemma checkInvite_total (response : option Response) :
  exists b, L.checkInvite_of response = inr (JBool b).
Proof.
  destruct response as [r |]; cbn [L.checkInvite_of]; [| eauto].
  destruct (get_opt_total (data r) "data") as [d ->]. cbn [bindR].
  destruct (get_opt_total d "valid") as [valid ->]. cbn [bindR].
  destruct (truthy valid); eauto.
Qed.

Lemma logger_log_falsy (error : JSValue) :
  truthy error = false -> forall value, logger.log value error =
  (if truthy value then to_string value else inr tt).
Proof.
  intros H value. unfold logger.log. rewrite H.
  destruct (truthy value); [destruct (to_string value) as [e | []] |];
    reflexivity.
Qed.

(** [registerWallet] returns [true] or [false] when it returns. *)
Lemma registerWallet_values (response : option Response) (v : JSValue) :
  L.registerWallet_of response = inr v -> exists b, v = JBool b.
Proof.
  unfold L.registerWallet_of, L.registration_refused.
  destruct response as [r |].
  - destruct (status r =? 200)%Z; [intros [= <-]; eauto |].
    destruct (logger.error _ _) as [e | u]; cbn [bindR];
      [discriminate | intros [= <-]; eauto].
  - destruct (logger.error _ _) as [e | u]; cbn [bindR];
      [discriminate | intros [= <-]; eauto].
Qed.

Lemma dailyCheckIn_total (response : option Response) :
  exists b, L.dailyCheckIn_of response = inr (JBool b).
Proof.
  destruct response as [r |]; cbn [L.dailyCheckIn_of]; [| eauto].
  destruct (truthy (data r)); eauto.
Qed.

Lemma connectNode_total (response : option Response) :
  exists b, L.connectNode_of response = inr (JBool b).
Proof.
  destruct response as [r |]; cbn [L.connectNode_of]; [| eauto].
  destruct (truthy (data r)) eqn:Ht; [| eauto].
  destruct (get_truthy (data r) "message" Ht) as [message ->]. cbn [bindR].
  destruct (str_eq message _); eauto.
Qed.

Lemma stopNode_total (response : option Response) :
  exists b, L.stopNode_of response = inr (JBool b).
Proof.
  destruct response as [r |]; cbn [L.stopNode_of]; [| eauto].
  destruct (truthy (data r)); eauto.
Qed.

(** Four of the operations return whatever the transport result. *)
Lemma total_operations (op : Op) (response : option Response) :
  never_throws op = true ->
  exists b, L.result_of op response = inr (JBool b).
Proof.
  destruct op; try discriminate; intros _; cbn [L.result_of].
  - apply checkInvite_total.
  - apply dailyCheckIn_total.
  - apply connectNode_total.
  - apply stopNode_total.
Qed.

(** The registration check returns [true], [false] or [null] when it
    returns. *)
Lemma isWalletRegistered_values (response : option Response) (v : JSValue) :
  L.isWalletRegistered_of response = inr v ->
  v = JBool true \/ v = JBool false \/ v = JNull.
Proof.
  destruct response as [r |]; cbn [L.isWalletRegistered_of].
  - destruct (status r =? 200)%Z; [intros [= <-]; auto |].
    unfold L.registration_unknown.
    destruct (status r =? 404)%Z.
    + destruct (get (data r) "message") as [e | message]; cbn [bindR];
        [discriminate |].
      destruct (str_eq message _); [intros [= <-]; auto |].
      destruct (logger.error _ _) as [e | u]; cbn [bindR];
        [discriminate | intros [= <-]; auto].
    + destruct (logger.error _ _) as [e | u]; cbn [bindR];
        [discriminate | intros [= <-]; auto].
  - intros [= <-]. auto.
Qed.

Lemma checkNodeStatus_values (response : option Response) (v : JSValue) :
  L.checkNodeStatus_of response = inr v -> exists b, v = JBool b.
Proof.
  destruct response as [r |]; cbn [L.checkNodeStatus_of].
  - destruct (truthy (data r)); [| intros [= <-]; eauto].
    destruct (get (data r) "data") as [e | d]; cbn [bindR]; [discriminate |].
    destruct (get d "startTimestamp") as [e | ts]; cbn [bindR]; [discriminate |].
    destruct (not_null ts); intros [= <-]; eauto.
  - intros [= <-]. eauto.
Qed.

(** ** The workflow spelled out *)

Lemma outcome_total (this : L.t) (net : Op -> nat -> NetOutcome) (op : Op) :
  never_throws op = true ->
  exists b, outcome this net op = inr (JBool b).
Proof. intros H. apply total_operations. assumption. Qed.

Ltac exec_op op :=
  match goal with
  | |- context [exec ?net (bind (?f ?this) ?k)] =>
      change (f this) with (L.operation this op);
      rewrite (exec_bind net (L.operation this op)), exec_operation
  end.

Ltac exec_total op :=
  exec_op op;
  match goal with
  | |- context [outcome ?this ?net op] =>
      let b := fresh "b" in
      let Hb := fresh "Hb" in
      destruct (outcome_total this net op eq_refl) as [b Hb];
      rewrite Hb; clear b Hb
  end.

Lemma exec_attest (this : L.t) (net : Op -> nat -> NetOutcome) :
  exec net (attest_and_reconnect this) = attest_run this net.
Proof.
  unfold attest_and_reconnect, attest_run, attest_pre, claim_steps,
    points_steps, success_steps.
  rewrite exec_act. exec_total OpDailyCheckIn.
  rewrite exec_act. exec_op OpCheckNodeStatus.
  destruct (outcome this net OpCheckNodeStatus) as [e | isRunning];
    [reflexivity |].
  rewrite exec_bind.
  destruct (truthy isRunning).
  - rewrite exec_act. exec_total OpStopNode. cbn [exec fst snd app].
    rewrite exec_act. exec_total OpConnectNode.
    rewrite exec_act. exec_op OpCheckNodePoints.
    destruct (outcome this net OpCheckNodePoints) as [e | points];
      reflexivity.
  - cbn [exec fst snd app].
    rewrite exec_act. exec_total OpConnectNode.
    rewrite exec_act. exec_op OpCheckNodePoints.
    destruct (outcome this net OpCheckNodePoints) as [e | points];
      reflexivity.
Qed.

Lemma exec_try (lib : Library) (wallet : Wallet)
      (index total : nat) (net : Op -> nat -> NetOutcome) :
  exec net (processWallet_try lib wallet index total) =
  match L.new lib (proxy wallet) (privateKey wallet) (refCode wallet) with
  | inl e => ([SAct (LogVerbose "Processing wallet")], inl e)
  | inr this => try_run this net
  end.
Proof.
  unfold processWallet_try, try_run, check_steps, invite_steps.
  rewrite exec_act.
  destruct (L.new lib (proxy wallet) (privateKey wallet) (refCode wallet))
    as [e | this]; [reflexivity |].
  cbn [lift bind]. rewrite exec_act. exec_op OpIsWalletRegistered.
  destruct (outcome this net OpIsWalletRegistered) as [e | isRegistered];
    [reflexivity |].
  destruct (is_false isRegistered).
  - rewrite exec_act. exec_op OpCheckInvite.
    destruct (outcome this net OpCheckInvite) as [e | isValidInvite];
      [reflexivity |].
    destruct (negb (truthy isValidInvite)).
    + reflexivity.
    + exec_op OpRegisterWallet.
      destruct (outcome this net OpRegisterWallet) as [e | registered];
        [reflexivity |].
      destruct (negb (truthy registered)).
      * reflexivity.
      * rewrite exec_attest. reflexivity.
  - rewrite exec_attest. reflexivity.
Qed.

Lemma exec_catch (net : Op -> nat -> NetOutcome) (e : Exn) :
  exec net (processWallet_catch e) = (catch_steps, inr tt).
Proof. reflexivity. Qed.

(** The run of [processWallet] in closed form: it never rejects. *)
Lemma exec_processWallet (lib : Library) (wallet : Wallet)
      (index total : nat) (net : Op -> nat -> NetOutcome) :
  exec net (processWallet lib wallet index total) =
  workflow_run lib wallet net.
Proof.
  unfold processWallet, workflow_run. rewrite exec_try_catch, exec_try.
  destruct (L.new lib (proxy wallet) (privateKey wallet) (refCode wallet))
    as [e | this].
  - reflexivity.
  - unfold caught. destruct (try_run this net) as [s [e | []]]; reflexivity.
Qed.

(* ================================================================== *)
(** * Properties of processWallet *)
(* ================================================================== *)

Ltac open_workflow Hnew :=
  rewrite exec_processWallet; unfold workflow_run; rewrite Hnew;
  unfold caught, try_run, attest_run, check_steps, invite_steps,
    attest_pre, claim_steps, points_steps, success_steps, catch_steps, call.

Ltac split_points this net :=
  let points := fresh "points" in
  destruct (outcome this net OpCheckNodePoints) as [? | points].

Ltac split_status this net :=
  let isRunning := fresh "isRunning" in
  destruct (outcome this net OpCheckNodeStatus) as [? | isRunning];
  [| destruct (truthy isRunning); split_points this net].

Ltac split_register this net :=
  let registered := fresh "registered" in
  destruct (outcome this net OpRegisterWallet) as [? | registered];
  [| destruct (negb (truthy registered)); [| split_status this net]].

Ltac split_invite this net :=
  let isValidInvite := fresh "isValidInvite" in
  destruct (outcome this net OpCheckInvite) as [? | isValidInvite];
  [| destruct (negb (truthy isValidInvite)); [| split_register this net]].

Ltac cases_workflow this net :=
  let isRegistered := fresh "isRegistered" in
  destruct (outcome this net OpIsWalletRegistered) as [? | isRegistered];
  [| destruct (is_false isRegistered);
     [split_invite this net | split_status this net]].

Ltac not_in := cbn; intuition discriminate.

(** C6.  The result of the registration check branches three ways.  It
    is [true], [false] or [null] whenever the check returns.  On [true]
    and on [null] the next request is the daily check-in and neither the
    referral verification nor the registration is ever requested.  On
    [false] the next request is the referral verification, followed at
    once by the registration when the code is verified (and by nothing
    when it is not). *)
Theorem registration_check_branches (lib : Library)
        (wallet : Wallet) (index total : nat) (net : Op -> nat -> NetOutcome)
        (this : L.t) :
  L.new lib (proxy wallet) (privateKey wallet) (refCode wallet) = inr this ->
  let cs := calls (fst (exec net (processWallet lib wallet index total))) in
  let registered := outcome this net OpIsWalletRegistered in
  (forall v, registered = inr v ->
             v = JBool true \/ v = JBool false \/ v = JNull) /\
  (registered = inr (JBool true) ->
   (exists rest, cs = OpIsWalletRegistered :: OpDailyCheckIn :: rest) /\
   ~ In OpCheckInvite cs /\ ~ In OpRegisterWallet cs) /\
  (registered = inr (JBool false) ->
   (exists rest, cs = OpIsWalletRegistered :: OpCheckInvite :: rest) /\
   (outcome this net OpCheckInvite = inr (JBool true) ->
    exists rest,
      cs = OpIsWalletRegistered :: OpCheckInvite :: OpRegisterWallet :: rest) /\
   (outcome this net OpCheckInvite = inr (JBool false) ->
    cs = [OpIsWalletRegistered; OpCheckInvite])) /\
  (registered = inr JNull ->
   (exists rest, cs = OpIsWalletRegistered :: OpDailyCheckIn :: rest) /\
   ~ In OpCheckInvite cs /\ ~ In OpRegisterWallet cs).
Proof.
  intros Hnew cs registered. subst cs registered.
  split; [apply isWalletRegistered_values |].
  open_workflow Hnew.
  split; [| split]; intros Hreg; rewrite Hreg; cbn [is_false].
  - split_status this net; cbn; (split; [eauto | split; not_in]).
  - split; [| split].
    + split_invite this net; cbn; eauto.
    + intros ->. cbn [truthy negb].
      split_register this net; cbn; eauto.
    + intros ->. reflexivity.
  - split_status this net; cbn; (split; [eauto | split; not_in]).
Qed.

Lemma registration_check_branches_witness :
  L.new sample_lib (proxy sample_wallet) (privateKey sample_wallet)
        (refCode sample_wallet) = inr sample_session /\
  outcome sample_session net_bad_invite OpIsWalletRegistered = inr (JBool false) /\
  outcome sample_session net_bad_invite OpCheckInvite = inr (JBool false) /\
  calls (fst (exec net_bad_invite (processWallet sample_lib sample_wallet 0 1)))
  = [OpIsWalletRegistered; OpCheckInvite].
Proof.
  split; [reflexivity |]. split; [reflexivity |]. split; [reflexivity |].
  destruct (registration_check_branches sample_lib sample_wallet 0 1
              net_bad_invite sample_session eq_refl) as (_ & _ & H & _).
  destruct (H eq_refl) as (_ & _ & H'). apply H'. reflexivity.
Defined.

(** When the node-status check returns, the steps around it are as
    intended: a running node is stopped before it is started again, a
    stopped node is started directly. *)
Lemma node_status_step (lib : Library)
      (wallet : Wallet) (index total : nat) (net : Op -> nat -> NetOutcome)
      (this : L.t) :
  L.new lib (proxy wallet) (privateKey wallet) (refCode wallet) = inr this ->
  let cs := calls (fst (exec net (processWallet lib wallet index total))) in
  In OpCheckNodeStatus cs ->
  (outcome this net OpCheckNodeStatus = inr (JBool true) ->
   exists before after,
     cs = before ++ OpCheckNodeStatus :: OpStopNode :: OpConnectNode :: after /\
     ~ In OpStopNode before /\ ~ In OpConnectNode before) /\
  (outcome this net OpCheckNodeStatus = inr (JBool false) ->
   ~ In OpStopNode cs /\
   exists before after,
     cs = before ++ OpCheckNodeStatus :: OpConnectNode :: after) /\
  (forall v, outcome this net OpCheckNodeStatus = inr v -> In OpConnectNode cs) /\
  (forall e, outcome this net OpCheckNodeStatus = inl e -> ~ In OpConnectNode cs).
Proof.
  intros Hnew cs. subst cs. open_workflow Hnew.
  destruct (outcome this net OpIsWalletRegistered) as [e | isRegistered];
    [cbn; intuition discriminate |].
  destruct (is_false isRegistered);
    [destruct (outcome this net OpCheckInvite) as [e | isValidInvite];
     [cbn; intuition discriminate |];
     destruct (negb (truthy isValidInvite));
     [cbn; intuition discriminate |];
     destruct (outcome this net OpRegisterWallet) as [e | registered];
     [cbn; intuition discriminate |];
     destruct (negb (truthy registered));
     [cbn; intuition discriminate |] |].
  - intros _. split; [| split; [| split]].
    + intros ->. split_points this net; cbn;
        exists [OpIsWalletRegistered; OpCheckInvite; OpRegisterWallet; OpDailyCheckIn];
        eexists; (split; [reflexivity |]); split; not_in.
    + intros ->. split_points this net; cbn; (split; [not_in |]);
        exists [OpIsWalletRegistered; OpCheckInvite; OpRegisterWallet; OpDailyCheckIn];
        eexists; reflexivity.
    + intros v ->. destruct (truthy v); split_points this net; cbn; intuition.
    + intros e ->. not_in.
  - intros _. split; [| split; [| split]].
    + intros ->. split_points this net; cbn;
        exists [OpIsWalletRegistered; OpDailyCheckIn];
        eexists; (split; [reflexivity |]); split; not_in.
    + intros ->. split_points this net; cbn; (split; [not_in |]);
        exists [OpIsWalletRegistered; OpDailyCheckIn];
        eexists; reflexivity.
    + intros v ->. destruct (truthy v); split_points this net; cbn; intuition.
    + intros e ->. not_in.
Qed.

(* ================================================================== *)
(** * Workflows under a schedule *)
(* ================================================================== *)

Lemma actions_app (s1 s2 : list Step) :
  actions (s1 ++ s2) = actions s1 ++ actions s2.
Proof. apply flat_map_app. Qed.

(** What a workflow does up to its next suspension, and what it still
    has to do then, add up to what it does on its own. *)
Lemma run_sync_pending (net : Op -> nat -> NetOutcome) (p : Proc unit) :
  actions (fst (exec net p)) = snd (run_sync p) ++ pending net (fst (run_sync p)).
Proof.
  induction p as [a | e | a k IH | op run k IH]; cbn [exec run_sync].
  - reflexivity.
  - reflexivity.
  - destruct (exec net k) as [steps r]. destruct (run_sync k) as [t done].
    cbn [fst snd actions flat_map app] in *. f_equal. exact IH.
  - destruct (run (net op)) as [evs response] eqn:E.
    cbn [fst snd pending app]. rewrite E. cbn [snd].
    destruct (exec net (k response)) as [steps r]. reflexivity.
Qed.

Lemma apply_actions_app (j : nat) (a b : list Action) (sh : Shared) :
  apply_actions j (a ++ b) sh = apply_actions j b (apply_actions j a sh).
Proof. apply fold_left_app. Qed.

Lemma apply_actions_cons (j : nat) (a : Action) (acts : list Action) (sh : Shared) :
  apply_actions j (a :: acts) sh = apply_actions j acts (apply_action j sh a).
Proof. reflexivity. Qed.

Lemma update_comm {A} (f g : A -> A) (n m : nat) (l : list A) :
  n <> m -> update n f (update m g l) = update m g (update n f l).
Proof.
  revert n m. induction l as [| x l IH]; intros n m H; [destruct n, m; reflexivity |].
  destruct n as [| n], m as [| m]; cbn [update]; try reflexivity.
  - congruence.
  - f_equal. apply IH. congruence.
Qed.

Lemma apply_action_comm (j j' : nat) (a a' : Action) (sh : Shared) :
  j <> j' ->
  apply_action j (apply_action j' sh a') a =
  apply_action j' (apply_action j sh a) a'.
Proof.
  intros H. destruct a, a'; cbn [apply_action stats wallets success failed];
    try reflexivity.
  f_equal. apply update_comm. assumption.
Qed.

Lemma apply_actions_comm1 (j j' : nat) (a : Action) (acts : list Action)
      (sh : Shared) :
  j <> j' ->
  apply_action j (apply_actions j' acts sh) a =
  apply_actions j' acts (apply_action j sh a).
Proof.
  intros H. revert sh. induction acts as [| a' acts IH]; intros sh; [reflexivity |].
  rewrite !apply_actions_cons, IH. f_equal. apply apply_action_comm. assumption.
Qed.

(** Actions of different workflows commute. *)
Lemma apply_actions_comm (j j' : nat) (acts acts' : list Action) (sh : Shared) :
  j <> j' ->
  apply_actions j acts (apply_actions j' acts' sh) =
  apply_actions j' acts' (apply_actions j acts sh).
Proof.
  intros H. revert sh. induction acts as [| a acts IH]; intros sh; [reflexivity |].
  rewrite !apply_actions_cons, <- IH. f_equal.
  apply apply_actions_comm1. assumption.
Qed.

Lemma finish_settled (env : Env) (ts : list Task) (j : nat) (sh : Shared) :
  forallb is_settled ts = true -> finish env j ts sh = sh.
Proof.
  revert j sh. induction ts as [| t ts IH]; intros j sh H; [reflexivity |].
  cbn [forallb] in H. apply andb_prop in H. destruct H as [Ht Hts].
  destruct t; [discriminate |]. cbn [finish pending apply_actions fold_left].
  apply IH. assumption.
Qed.

(** Resuming one workflow does not change where the group is heading. *)
Lemma resume_step_finish (env : Env) (ts : list Task) (pos i0 : nat)
      (op : Op) (run : Request) (k : option Response -> Proc unit) (sh : Shared) :
  nth_error ts pos = Some (Waiting op run k) ->
  let next := run_sync (k (snd (run (network env (i0 + pos) op)))) in
  finish env i0 (update pos (fun _ => fst next) ts)
         (apply_actions (i0 + pos) (snd next) sh) =
  finish env i0 ts sh.
Proof.
  revert pos i0 sh. induction ts as [| t0 ts IH]; intros pos i0 sh Hnth next.
  - destruct pos; discriminate.
  - destruct pos as [| pos]; cbn [nth_error] in Hnth.
    + injection Hnth as ->. subst next. rewrite Nat.add_0_r.
      cbn [update finish]. f_equal.
      rewrite <- apply_actions_app. f_equal. cbn [pending].
      symmetry. apply run_sync_pending.
    + subst next. cbn [update finish].
      rewrite apply_actions_comm by lia.
      replace (i0 + S pos) with (S i0 + pos) by lia.
      apply (IH pos (S i0)). assumption.
Qed.

Lemma resume_finish (env : Env) (i pos : nat) (ts ts' : list Task)
      (sh sh' : Shared) (evs : list Event) :
  resume env i pos ts sh = Some (ts', sh', evs) ->
  finish env i ts' sh' = finish env i ts sh.
Proof.
  unfold resume. destruct (nth_error ts pos) as [[op run k | b] |] eqn:Hnth;
    try discriminate.
  pose proof (resume_step_finish env ts pos i op run k sh Hnth) as H.
  cbn zeta in H.
  destruct (run (network env (i + pos) op)) as [revs response].
  cbn [snd] in H.
  destruct (run_sync (k response)) as [t done]. cbn [fst snd] in H.
  intros [= <- <- <-]. exact H.
Qed.

Lemma run_schedule_finish (env : Env) (i : nat) (sched : list nat)
      (ts ts' : list Task) (sh sh' : Shared) (evs : list Event) :
  run_schedule env i sched ts sh = Some (ts', sh', evs) ->
  finish env i ts' sh' = finish env i ts sh.
Proof.
  revert ts sh evs. induction sched as [| pos sched IH]; intros ts sh evs.
  - cbn [run_schedule]. intros [= <- <- <-]. reflexivity.
  - cbn [run_schedule].
    destruct (resume env i pos ts sh) as [[[ts1 sh1] e1] |] eqn:Hres;
      [| discriminate].
    destruct (run_schedule env i sched ts1 sh1) as [[[ts2 sh2] e2] |] eqn:Hrun;
      [| discriminate].
    intros [= <- <- <-].
    rewrite (IH _ _ _ Hrun). apply (resume_finish _ _ _ _ _ _ _ _ Hres).
Qed.

(** After the launch of a group, the group is heading to the state the
    reference run reaches.  [f] stands for what earlier wallets of the
    group still have to do. *)
Lemma launch_finish (env : Env) (total i : nat) (batch : list Wallet) :
  forall (index : nat) (sh : Shared) (f : Shared -> Shared),
    (forall j acts s, i + index <= j ->
                      f (apply_actions j acts s) = apply_actions j acts (f s)) ->
    let '(ts, sh', _) := launch env total i batch index sh in
    finish env (i + index) ts (f sh') =
    run_in_order env total (i + index) batch (f sh).
Proof.
  induction batch as [| w batch IH]; intros index sh f Hf; [reflexivity |].
  cbn [launch].
  pose proof (run_sync_pending (network env (i + index))
                (processWallet (lib env) w (i + index) total)) as Hsplit.
  destruct (run_sync (processWallet (lib env) w (i + index) total))
    as [t done]. cbn [fst snd] in Hsplit.
  specialize (IH (S index) (apply_actions (i + index) done sh)
                 (fun s => apply_actions (i + index)
                             (pending (network env (i + index)) t) (f s))).
  destruct (launch env total i batch (S index)
                   (apply_actions (i + index) done sh)) as [[ts sh'] evs].
  cbn [finish run_in_order].
  replace (S (i + index)) with (i + S index) by lia.
  rewrite IH.
  - f_equal. rewrite Hf by lia. rewrite <- apply_actions_app.
    unfold solo_actions, steps_of. rewrite Hsplit. reflexivity.
  - intros j acts s Hj. rewrite Hf by lia.
    apply apply_actions_comm. lia.
Qed.

(** A group that has settled is in the state of the reference run,
    whatever the schedule. *)
Lemma allSettled_in_order (env : Env) (total i : nat) (batch : list Wallet)
      (sched : list nat) (sh sh' : Shared) (evs : list Event) :
  allSettled env total i batch sched sh = Some (sh', evs) ->
  sh' = run_in_order env total i batch sh.
Proof.
  unfold allSettled.
  pose proof (launch_finish env total i batch 0 sh (fun s => s)
                            (fun _ _ _ _ => eq_refl)) as Hl.
  destruct (launch env total i batch 0 sh) as [[ts sh1] e1].
  destruct (run_schedule env i sched ts sh1) as [[[ts2 sh2] e2] |] eqn:Hrun;
    [| discriminate].
  destruct (forallb is_settled ts2) eqn:Hall; [| discriminate].
  intros [= <- <-].
  rewrite Nat.add_0_r in Hl. rewrite <- Hl.
  rewrite <- (run_schedule_finish _ _ _ _ _ _ _ _ Hrun).
  symmetry. apply finish_settled. assumption.
Qed.

(** ** The state a workflow leaves behind *)

Lemma set_point_same (w : Wallet) : set_point w (point w) = w.
Proof. destruct w. reflexivity. Qed.

Lemma update_ext {A} (f g : A -> A) (n : nat) (l : list A) :
  (forall x, f x = g x) -> update n f l = update n g l.
Proof.
  intros H. revert n. induction l as [| x l IH]; intros [| n]; cbn [update];
    try reflexivity.
  - rewrite H. reflexivity.
  - rewrite IH. reflexivity.
Qed.

Lemma update_id {A} (n : nat) (l : list A) : update n (fun x => x) l = l.
Proof.
  revert n. induction l as [| x l IH]; intros [| n]; cbn [update];
    try reflexivity.
  rewrite IH. reflexivity.
Qed.

Lemma update_update {A} (f g : A -> A) (n : nat) (l : list A) :
  update n f (update n g l) = update n (fun x => f (g x)) l.
Proof.
  revert n. induction l as [| x l IH]; intros [| n]; cbn [update];
    try reflexivity.
  rewrite IH. reflexivity.
Qed.

Lemma length_update {A} (f : A -> A) (n : nat) (l : list A) :
  List.length (update n f l) = List.length l.
Proof.
  revert n. induction l as [| x l IH]; intros [| n]; cbn [update List.length];
    try reflexivity.
  rewrite IH. reflexivity.
Qed.

Lemma update_middle {A} (f : A -> A) (pre : list A) (x : A) (rest : list A) :
  update (List.length pre) f (pre ++ x :: rest) = pre ++ f x :: rest.
Proof.
  induction pre as [| y pre IH]; [reflexivity |].
  cbn [List.length app update]. rewrite IH. reflexivity.
Qed.

Lemma wallets_apply_actions (j : nat) (acts : list Action) (sh : Shared) :
  wallets (apply_actions j acts sh) =
  update j (fun w => set_point w (point_after acts (point w))) (wallets sh).
Proof.
  revert sh. induction acts as [| a acts IH]; intros sh.
  - cbn [apply_actions fold_left point_after].
    rewrite (update_ext _ (fun w => w)) by apply set_point_same.
    symmetry. apply update_id.
  - rewrite apply_actions_cons, IH.
    unfold point_after. cbn [fold_left]. fold (point_after acts).
    destruct a; cbn [apply_action wallets]; try reflexivity.
    rewrite update_update. apply update_ext. intros w. reflexivity.
Qed.

Lemma stats_apply_actions (j : nat) (acts : list Action) (sh : Shared) :
  stats (apply_actions j acts sh) =
  mkStats (success (stats sh) + count_success acts)
          (failed (stats sh) + count_failed acts).
Proof.
  revert sh. induction acts as [| a acts IH]; intros sh.
  - cbn. rewrite !Nat.add_0_r. destruct (stats sh). reflexivity.
  - rewrite apply_actions_cons, IH. unfold count_success, count_failed.
    destruct a; cbn [apply_action stats success failed filter List.length];
      f_equal; lia.
Qed.

Lemma stats_run_in_order (env : Env) (total : nat) (ws : list Wallet) :
  forall (j : nat) (sh : Shared),
    stats (run_in_order env total j ws sh) =
    mkStats (success (stats sh) + tally count_success env total j ws)
            (failed (stats sh) + tally count_failed env total j ws).
Proof.
  induction ws as [| w ws IH]; intros j sh.
  - cbn. rewrite !Nat.add_0_r. destruct (stats sh). reflexivity.
  - cbn [run_in_order tally]. rewrite IH, stats_apply_actions.
    cbn [success failed]. f_equal; lia.
Qed.

Lemma length_settle_points (env : Env) (total : nat) (ws : list Wallet) (j : nat) :
  List.length (settle_points env total j ws) = List.length ws.
Proof.
  revert j. induction ws as [| w ws IH]; intros j; [reflexivity |].
  cbn [settle_points List.length]. rewrite IH. reflexivity.
Qed.

Lemma wallets_run_in_order (env : Env) (total : nat) (ws : list Wallet) :
  forall (pre post : list Wallet) (sh : Shared),
    wallets sh = pre ++ ws ++ post ->
    wallets (run_in_order env total (List.length pre) ws sh) =
    pre ++ settle_points env total (List.length pre) ws ++ post.
Proof.
  induction ws as [| w ws IH]; intros pre post sh Hsh.
  - cbn. assumption.
  - cbn [run_in_order settle_points].
    specialize (IH (pre ++ [set_point w (point_after
                      (solo_actions env total (List.length pre) w) (point w))])
                   post
                   (apply_actions (List.length pre)
                      (solo_actions env total (List.length pre) w) sh)).
    rewrite length_app in IH. cbn [List.length] in IH.
    rewrite Nat.add_1_r in IH. rewrite IH.
    + rewrite <- app_assoc. reflexivity.
    + rewrite wallets_apply_actions, Hsh. cbn [app].
      rewrite update_middle, <- app_assoc. reflexivity.
Qed.

Lemma run_in_order_app (env : Env) (total : nat) (a b : list Wallet) :
  forall (j : nat) (sh : Shared),
    run_in_order env total j (a ++ b) sh =
    run_in_order env total (j + List.length a) b (run_in_order env total j a sh).
Proof.
  induction a as [| w a IH]; intros j sh.
  - cbn. rewrite Nat.add_0_r. reflexivity.
  - cbn [app run_in_order List.length]. rewrite IH. f_equal. lia.
Qed.

(** ** The loop over the groups *)

Lemma batches_loop_eq (env : Env) (total batchSize : nat)
      (scheds : list (list nat)) (i : nat) (sh : Shared) :
  batches_loop env total batchSize scheds i sh =
  if i <? total then
    match scheds with
    | [] => None
    | sched :: rest =>
        let batch := slice i (i + batchSize) (wallets sh) in
        match allSettled env total i batch sched sh with
        | Some (sh1, e1) =>
            match batches_loop env total batchSize rest (i + batchSize) sh1 with
            | Some (sh2, e2) =>
                Some (sh2, EvBatch i (List.length batch) :: e1 ++ e2)
            | None => None
            end
        | None => None
        end
    end
  else Some (sh, []).
Proof. destruct scheds; reflexivity. Qed.

Lemma slice_middle {A} (pre ws : list A) (n : nat) :
  slice (List.length pre) (List.length pre + n) (pre ++ ws) = firstn n ws.
Proof.
  unfold slice. replace (List.length pre + n - List.length pre) with n by lia.
  rewrite skipn_app, Nat.sub_diag, skipn_all. reflexivity.
Qed.

(** Whatever the schedules, a run of the loop that ends leaves the state
    of the reference run. *)
Lemma batches_loop_in_order (env : Env) (total batchSize : nat)
      (scheds : list (list nat)) :
  forall (pre ws : list Wallet) (sh sh' : Shared) (evs : list Event),
    wallets sh = pre ++ ws ->
    total = List.length (pre ++ ws) ->
    batches_loop env total batchSize scheds (List.length pre) sh = Some (sh', evs) ->
    sh' = run_in_order env total (List.length pre) ws sh.
Proof.
  induction scheds as [| sched rest IH]; intros pre ws sh sh' evs Hsh Htotal;
    rewrite batches_loop_eq; rewrite length_app in Htotal.
  - destruct (List.length pre <? total) eqn:Hlt; [discriminate |].
    apply Nat.ltb_ge in Hlt. intros [= <- <-].
    destruct ws; [reflexivity | cbn [List.length] in Htotal; lia].
  - destruct (List.length pre <? total) eqn:Hlt.
    + cbn zeta. rewrite Hsh, slice_middle.
      destruct (allSettled env total (List.length pre) (firstn batchSize ws) sched sh)
        as [[sh1 e1] |] eqn:Hall; [| discriminate].
      apply allSettled_in_order in Hall.
      destruct (batches_loop env total batchSize rest
                             (List.length pre + batchSize) sh1)
        as [[sh2 e2] |] eqn:Hloop; [| discriminate].
      intros [= <- <-].
      rewrite <- (firstn_skipn batchSize ws) at 1.
      rewrite run_in_order_app, <- Hall.
      destruct (le_lt_dec batchSize (List.length ws)) as [Hle | Hgt].
      * rewrite length_firstn, Nat.min_l by assumption.
        assert (Hw : wallets sh1 =
                     (pre ++ settle_points env total (List.length pre)
                                           (firstn batchSize ws))
                       ++ skipn batchSize ws).
        { rewrite Hall, <- app_assoc. apply wallets_run_in_order.
          rewrite firstn_skipn. assumption. }
        specialize (IH _ _ sh1 sh2 e2 Hw).
        rewrite !length_app, length_settle_points, length_firstn,
          length_skipn, Nat.min_l in IH by assumption.
        apply IH; [lia | assumption].
      * rewrite skipn_all2 by lia. cbn [run_in_order].
        rewrite batches_loop_eq in Hloop.
        assert (Hge : (List.length pre + batchSize <? total) = false)
          by (apply Nat.ltb_ge; lia).
        rewrite Hge in Hloop. congruence.
    + apply Nat.ltb_ge in Hlt. intros [= <- <-].
      destruct ws; [reflexivity | cbn [List.length] in Htotal; lia].
Qed.

Lemma processWalletsInBatches_in_order (env : Env) (ws : list Wallet)
      (batchSize : nat) (scheds : list (list nat)) (sh : Shared)
      (evs : list Event) :
  processWalletsInBatches env ws batchSize scheds = Some (sh, evs) ->
  sh = run_in_order env (List.length ws) 0 ws (mkShared (mkStats 0 0) ws).
Proof.
  unfold processWalletsInBatches. intros H.
  apply (batches_loop_in_order env (List.length ws) batchSize scheds [] ws
           _ _ evs); [reflexivity | reflexivity | exact H].
Qed.

(** ** Every group settles under some schedule *)

Lemma run_sync_remaining (net : Op -> nat -> NetOutcome) (p : Proc unit) :
  remaining net (fst (run_sync p)) = List.length (calls (fst (exec net p))).
Proof.
  induction p as [a | e | a k IH | op run k IH]; cbn [exec run_sync].
  - reflexivity.
  - reflexivity.
  - destruct (exec net k) as [steps r]. destruct (run_sync k) as [t done].
    cbn [fst snd calls flat_map app] in *. exact IH.
  - destruct (run (net op)) as [evs response] eqn:E.
    cbn [fst remaining]. rewrite E. cbn [snd].
    destruct (exec net (k response)) as [steps r]. reflexivity.
Qed.

Lemma nth_error_update_same {A} (f : A -> A) (n : nat) (l : list A) (x : A) :
  nth_error l n = Some x -> nth_error (update n f l) n = Some (f x).
Proof.
  revert n. induction l as [| y l IH]; intros [| n] H; try discriminate.
  - injection H as ->. reflexivity.
  - cbn [update nth_error] in *. apply IH. assumption.
Qed.

Lemma nth_error_update_other {A} (f : A -> A) (n m : nat) (l : list A) :
  n <> m -> nth_error (update n f l) m = nth_error l m.
Proof.
  revert n m. induction l as [| y l IH]; intros [| n] [| m] H;
    cbn [update nth_error]; try reflexivity; try congruence.
  apply IH. congruence.
Qed.

Lemma run_schedule_app (env : Env) (i : nat) (s1 s2 : list nat)
      (ts ts1 ts2 : list Task) (sh sh1 sh2 : Shared) (e1 e2 : list Event) :
  run_schedule env i s1 ts sh = Some (ts1, sh1, e1) ->
  run_schedule env i s2 ts1 sh1 = Some (ts2, sh2, e2) ->
  run_schedule env i (s1 ++ s2) ts sh = Some (ts2, sh2, e1 ++ e2).
Proof.
  revert ts sh e1. induction s1 as [| pos s1 IH]; intros ts sh e1 H1 H2.
  - cbn in H1. injection H1 as <- <- <-. exact H2.
  - cbn [run_schedule app] in *.
    destruct (resume env i pos ts sh) as [[[ts' sh'] e'] |]; [| discriminate].
    destruct (run_schedule env i s1 ts' sh') as [[[ts'' sh''] e''] |] eqn:E;
      [| discriminate].
    injection H1 as <- <- <-.
    rewrite (IH _ _ _ E H2), app_assoc. reflexivity.
Qed.

(** Resuming the workflow at [pos] again and again settles it and
    leaves the others as they are. *)
Lemma settle_one (env : Env) (i pos : nat) :
  forall (n : nat) (ts : list Task) (sh : Shared) (t : Task),
    nth_error ts pos = Some t ->
    remaining (network env (i + pos)) t = n ->
    exists sched ts' sh' evs,
      run_schedule env i sched ts sh = Some (ts', sh', evs) /\
      List.length ts' = List.length ts /\
      (exists b, nth_error ts' pos = Some (Settled b)) /\
      (forall q, q <> pos -> nth_error ts' q = nth_error ts q).
Proof.
  induction n as [| n IH]; intros ts sh t Hnth Hrem.
  - destruct t as [op run k | b]; [discriminate |].
    exists [], ts, sh, []. repeat split; eauto.
  - destruct t as [op run k | b]; [| discriminate].
    cbn [remaining] in Hrem. injection Hrem as Hrem.
    pose proof (run_sync_remaining (network env (i + pos))
                  (k (snd (run (network env (i + pos) op))))) as Hr.
    rewrite Hrem in Hr.
    destruct (run (network env (i + pos) op)) as [revs response] eqn:Erun.
    cbn [snd] in Hr.
    destruct (run_sync (k response)) as [t1 done] eqn:Esync. cbn [fst] in Hr.
    destruct (IH (update pos (fun _ => t1) ts)
                 (apply_actions (i + pos) done sh) t1
                 (nth_error_update_same _ _ _ _ Hnth) Hr)
      as (sched & ts' & sh' & evs & Hrun & Hlen & Hset & Hoth).
    exists (pos :: sched), ts', sh', (segment_events (i + pos) done t1 ++ evs).
    repeat split.
    + cbn [run_schedule]. unfold resume. rewrite Hnth, Erun, Esync, Hrun.
      reflexivity.
    + rewrite Hlen. apply length_update.
    + assumption.
    + intros q Hq. rewrite Hoth by assumption.
      apply nth_error_update_other. congruence.
Qed.

Lemma settle_first (env : Env) (i : nat) :
  forall (n : nat) (ts : list Task) (sh : Shared),
    n <= List.length ts ->
    exists sched ts' sh' evs,
      run_schedule env i sched ts sh = Some (ts', sh', evs) /\
      List.length ts' = List.length ts /\
      (forall q, q < n -> exists b, nth_error ts' q = Some (Settled b)).
Proof.
  induction n as [| n IH]; intros ts sh Hn.
  - exists [], ts, sh, []. repeat split. intros q Hq. lia.
  - destruct (IH ts sh ltac:(lia))
      as (s1 & ts1 & sh1 & e1 & Hrun1 & Hlen1 & Hset1).
    destruct (nth_error ts1 n) as [t |] eqn:Hnth.
    2:{ apply nth_error_None in Hnth. lia. }
    destruct (settle_one env i n _ ts1 sh1 t Hnth eq_refl)
      as (s2 & ts2 & sh2 & e2 & Hrun2 & Hlen2 & Hset2 & Hoth2).
    exists (s1 ++ s2), ts2, sh2, (e1 ++ e2). repeat split.
    + apply (run_schedule_app _ _ _ _ _ _ _ _ _ _ _ _ Hrun1 Hrun2).
    + lia.
    + intros q Hq. destruct (Nat.eq_dec q n) as [-> | Hne]; [assumption |].
      rewrite Hoth2 by assumption. apply Hset1. lia.
Qed.

Lemma allSettled_exists (env : Env) (total i : nat) (batch : list Wallet)
      (sh : Shared) :
  exists sched r, allSettled env total i batch sched sh = Some r.
Proof.
  unfold allSettled.
  destruct (launch env total i batch 0 sh) as [[ts sh1] e1].
  destruct (settle_first env i (List.length ts) ts sh1 (Nat.le_refl _))
    as (sched & ts' & sh' & evs & Hrun & Hlen & Hset).
  exists sched. rewrite Hrun.
  assert (Hall : forallb is_settled ts' = true).
  { apply forallb_forall. intros t Hin.
    apply In_nth_error in Hin. destruct Hin as [q Hq].
    assert (Hlt : q < List.length ts')
      by (apply nth_error_Some; congruence).
    destruct (Hset q ltac:(lia)) as [b Hb].
    rewrite Hb in Hq. injection Hq as <-. reflexivity. }
  rewrite Hall. eauto.
Qed.

(** With a positive batch size the loop ends under some schedules. *)
Lemma batches_loop_exists (env : Env) (total batchSize : nat) :
  1 <= batchSize ->
  forall (n i : nat) (sh : Shared),
    total - i <= n ->
    exists scheds r, batches_loop env total batchSize scheds i sh = Some r.
Proof.
  intros HB. induction n as [| n IH]; intros i sh Hn.
  - exists [], (sh, []). rewrite batches_loop_eq.
    assert (H : (i <? total) = false) by (apply Nat.ltb_ge; lia).
    rewrite H. reflexivity.
  - destruct (i <? total) eqn:Hlt.
    + destruct (allSettled_exists env total i
                  (slice i (i + batchSize) (wallets sh)) sh)
        as (sched & [sh1 e1] & Hall).
      apply Nat.ltb_lt in Hlt.
      destruct (IH (i + batchSize) sh1 ltac:(lia)) as (rest & [sh2 e2] & Hrest).
      exists (sched :: rest). rewrite batches_loop_eq.
      apply Nat.ltb_lt in Hlt. rewrite Hlt. cbn zeta.
      rewrite Hall, Hrest. eauto.
    + exists [], (sh, []). rewrite batches_loop_eq, Hlt. reflexivity.
Qed.

(* ================================================================== *)
(** * The trace of a run *)
(* ================================================================== *)

Lemma segment_events_index (j : nat) (done : list Action) (t : Task) (e : Event) :
  In e (segment_events j done t) -> event_index e = Some j.
Proof.
  unfold segment_events. intros H. apply in_app_or in H. destruct H as [H | H].
  - apply in_map_iff in H. destruct H as (a & <- & _). reflexivity.
  - destruct H as [<- | []]. destruct t; reflexivity.
Qed.

Lemma segment_events_task (j : nat) (done : list Action) (t : Task) :
  In (task_event j t) (segment_events j done t).
Proof. unfold segment_events. apply in_or_app. right. left. reflexivity. Qed.

Lemma launch_events (env : Env) (total i : nat) (batch : list Wallet) :
  forall (index : nat) (sh : Shared),
    let '(ts, _, evs) := launch env total i batch index sh in
    List.length ts = List.length batch /\
    (forall e, In e evs ->
       exists j, event_index e = Some j /\
                 i + index <= j < i + index + List.length batch) /\
    (forall q, q < List.length batch -> In (EvStart (i + index + q)) evs) /\
    (forall q t, nth_error ts q = Some t ->
                 In (task_event (i + index + q) t) evs).
Proof.
  induction batch as [| w batch IH]; intros index sh.
  - cbn [launch List.length]. split; [reflexivity |].
    split; [intros e [] |]. split; [intros q Hq; lia |].
    intros [| q] t H; discriminate.
  - cbn [launch].
    destruct (run_sync (processWallet (lib env) w (i + index) total))
      as [t done].
    specialize (IH (S index) (apply_actions (i + index) done sh)).
    destruct (launch env total i batch (S index)
                     (apply_actions (i + index) done sh)) as [[ts sh'] evs].
    destruct IH as (Hlen & Hidx & Hstart & Htask).
    cbn [List.length]. split; [lia |]. split; [| split].
    + intros e [<- | He].
      * exists (i + index). split; [reflexivity | lia].
      * apply in_app_or in He. destruct He as [He | He].
        -- exists (i + index). split; [| lia].
           apply (segment_events_index _ _ _ _ He).
        -- destruct (Hidx e He) as (j & Hj & Hr). exists j. split; [assumption | lia].
    + intros [| q] Hq.
      * left. f_equal. lia.
      * right. apply in_or_app. right.
        replace (i + index + S q) with (i + S index + q) by lia.
        apply Hstart. lia.
    + intros [| q] t' Hq; cbn [nth_error] in Hq.
      * injection Hq as <-. right. apply in_or_app. left.
        rewrite Nat.add_0_r. apply segment_events_task.
      * right. apply in_or_app. right.
        replace (i + index + S q) with (i + S index + q) by lia.
        apply Htask. assumption.
Qed.

Lemma resume_events (env : Env) (i pos : nat) (ts ts' : list Task)
      (sh sh' : Shared) (evs : list Event) :
  resume env i pos ts sh = Some (ts', sh', evs) ->
  List.length ts' = List.length ts /\
  (forall e, In e evs ->
     exists j, event_index e = Some j /\ i <= j < i + List.length ts) /\
  (forall q t, nth_error ts' q = Some t ->
     nth_error ts q = Some t \/ In (task_event (i + q) t) evs).
Proof.
  unfold resume. destruct (nth_error ts pos) as [[op run k | b] |] eqn:Hnth;
    try discriminate.
  destruct (run (network env (i + pos) op)) as [revs response].
  destruct (run_sync (k response)) as [t done].
  intros [= <- <- <-].
  assert (Hpos : pos < List.length ts) by (apply nth_error_Some; congruence).
  split; [apply length_update |]. split.
  - intros e He. exists (i + pos). split; [| lia].
    apply (segment_events_index _ _ _ _ He).
  - intros q t' Hq. destruct (Nat.eq_dec pos q) as [<- | Hne].
    + right. rewrite (nth_error_update_same _ _ _ _ Hnth) in Hq.
      injection Hq as <-. apply segment_events_task.
    + left. rewrite nth_error_update_other in Hq by assumption. assumption.
Qed.

Lemma run_schedule_events (env : Env) (i : nat) (sched : list nat) :
  forall (ts ts' : list Task) (sh sh' : Shared) (evs : list Event),
    run_schedule env i sched ts sh = Some (ts', sh', evs) ->
    List.length ts' = List.length ts /\
    (forall e, In e evs ->
       exists j, event_index e = Some j /\ i <= j < i + List.length ts) /\
    (forall q t, nth_error ts' q = Some t ->
       nth_error ts q = Some t \/ In (task_event (i + q) t) evs).
Proof.
  induction sched as [| pos sched IH]; intros ts ts' sh sh' evs.
  - cbn [run_schedule]. intros [= <- <- <-].
    repeat split; [intros e [] | auto].
  - cbn [run_schedule].
    destruct (resume env i pos ts sh) as [[[ts1 sh1] e1] |] eqn:Hres;
      [| discriminate].
    destruct (run_schedule env i sched ts1 sh1) as [[[ts2 sh2] e2] |] eqn:Hrun;
      [| discriminate].
    intros [= <- <- <-].
    destruct (resume_events _ _ _ _ _ _ _ _ Hres) as (Hl1 & Hi1 & Ht1).
    destruct (IH _ _ _ _ _ Hrun) as (Hl2 & Hi2 & Ht2).
    split; [lia |]. split.
    + intros e He. apply in_app_or in He. destruct He as [He | He].
      * apply Hi1. assumption.
      * rewrite <- Hl1. apply Hi2. assumption.
    + intros q t Hq. destruct (Ht2 q t Hq) as [H | H].
      * destruct (Ht1 q t H) as [H' | H']; [left; assumption |].
        right. apply in_or_app. left. assumption.
      * right. apply in_or_app. right. assumption.
Qed.

(** The events of a group that has settled are its whole life. *)
Lemma allSettled_in_group (env : Env) (total i : nat) (batch : list Wallet)
      (sched : list nat) (sh sh' : Shared) (evs : list Event) :
  allSettled env total i batch sched sh = Some (sh', evs) ->
  in_group i (List.length batch) evs.
Proof.
  unfold allSettled.
  pose proof (launch_events env total i batch 0 sh) as Hl.
  destruct (launch env total i batch 0 sh) as [[ts sh1] e1].
  destruct Hl as (Hlen & Hidx & Hstart & Htask).
  destruct (run_schedule env i sched ts sh1) as [[[ts2 sh2] e2] |] eqn:Hrun;
    [| discriminate].
  destruct (forallb is_settled ts2) eqn:Hall; [| discriminate].
  intros [= <- <-].
  destruct (run_schedule_events _ _ _ _ _ _ _ _ Hrun) as (Hl2 & Hi2 & Ht2).
  rewrite Nat.add_0_r in *. split.
  - intros e He. apply in_app_or in He. destruct He as [He | He].
    + apply Hidx. assumption.
    + rewrite <- Hlen. apply Hi2. assumption.
  - intros j Hj. split.
    + apply in_or_app. left. replace j with (i + (j - i)) by lia.
      apply Hstart. lia.
    + destruct (nth_error ts2 (j - i)) as [t |] eqn:Hnth.
      2:{ apply nth_error_None in Hnth. lia. }
      assert (Hs : is_settled t = true).
      { rewrite forallb_forall in Hall. apply Hall.
        apply (nth_error_In _ _ Hnth). }
      destruct t as [| b]; [discriminate |]. exists b.
      apply in_or_app.
      destruct (Ht2 _ _ Hnth) as [H | H].
      * left. apply Htask in H. cbn [task_event] in H.
        replace (i + (j - i)) with j in H by lia. assumption.
      * right. cbn [task_event] in H.
        replace (i + (j - i)) with j in H by lia. assumption.
Qed.

Lemma length_wallets_apply_actions (j : nat) (acts : list Action) (sh : Shared) :
  List.length (wallets (apply_actions j acts sh)) = List.length (wallets sh).
Proof. rewrite wallets_apply_actions. apply length_update. Qed.

Lemma length_wallets_run_in_order (env : Env) (total : nat) (ws : list Wallet) :
  forall (j : nat) (sh : Shared),
    List.length (wallets (run_in_order env total j ws sh)) =
    List.length (wallets sh).
Proof.
  induction ws as [| w ws IH]; intros j sh; [reflexivity |].
  cbn [run_in_order]. rewrite IH. apply length_wallets_apply_actions.
Qed.

Lemma length_slice {A} (i n : nat) (l : list A) :
  List.length (slice i (i + n) l) = Nat.min n (List.length l - i).
Proof.
  unfold slice. replace (i + n - i) with n by lia.
  rewrite length_firstn, length_skipn. reflexivity.
Qed.

(** The trace of a run of the loop is one group after the other. *)
Lemma batches_loop_grouped (env : Env) (total batchSize : nat)
      (scheds : list (list nat)) :
  forall (i : nat) (sh sh' : Shared) (evs : list Event),
    total = List.length (wallets sh) ->
    batches_loop env total batchSize scheds i sh = Some (sh', evs) ->
    grouped batchSize total i evs.
Proof.
  induction scheds as [| sched rest IH]; intros i sh sh' evs Htotal;
    rewrite batches_loop_eq.
  - destruct (i <? total) eqn:Hlt; [discriminate |].
    intros [= <- <-]. apply grouped_end. apply Nat.ltb_ge. assumption.
  - destruct (i <? total) eqn:Hlt.
    + cbn zeta.
      destruct (allSettled env total i (slice i (i + batchSize) (wallets sh)) sched sh)
        as [[sh1 e1] |] eqn:Hall; [| discriminate].
      destruct (batches_loop env total batchSize rest (i + batchSize) sh1)
        as [[sh2 e2] |] eqn:Hloop; [| discriminate].
      intros [= <- <-].
      rewrite length_slice, <- Htotal.
      apply grouped_next.
      * apply Nat.ltb_lt. assumption.
      * apply allSettled_in_group in Hall.
        rewrite length_slice, <- Htotal in Hall. assumption.
      * apply (IH _ sh1 sh2); [| assumption].
        apply allSettled_in_order in Hall. rewrite Hall.
        rewrite length_wallets_run_in_order. assumption.
    + intros [= <- <-]. apply grouped_end. apply Nat.ltb_ge. assumption.
Qed.

(** ** Counting the groups *)

Lemma ceil_div_spec (n b g : nat) :
  1 <= b -> (g < ceil_div n b <-> g * b < n).
Proof.
  intros Hb. unfold ceil_div. split.
  - intros H. destruct (le_lt_dec n (g * b)) as [Hle | Hlt]; [| assumption].
    exfalso.
    assert ((n + b - 1) / b < S g); [| lia].
    apply Nat.Div0.div_lt_upper_bound. lia.
  - intros H. apply (Nat.div_le_lower_bound _ _ (S g)); lia.
Qed.

Lemma ceil_div_zero (b : nat) : 1 <= b -> ceil_div 0 b = 0.
Proof.
  intros Hb. destruct (ceil_div 0 b) eqn:E; [reflexivity |].
  assert (H : 0 < ceil_div 0 b) by lia.
  apply ceil_div_spec in H; [lia | assumption].
Qed.

Lemma ceil_div_step (n b : nat) :
  1 <= b -> 1 <= n -> ceil_div n b = S (ceil_div (n - b) b).
Proof.
  intros Hb Hn.
  assert (H1 : forall g, g < ceil_div n b <-> g < S (ceil_div (n - b) b)).
  { intros g. rewrite ceil_div_spec by assumption. destruct g as [| g].
    - split; intros; lia.
    - rewrite <- Nat.succ_lt_mono, ceil_div_spec by assumption.
      cbn [Nat.mul]. split; intros; lia. }
  destruct (Nat.lt_trichotomy (ceil_div n b) (S (ceil_div (n - b) b)))
    as [H | [H | H]]; [| assumption |].
  - apply H1 in H. lia.
  - apply H1 in H. lia.
Qed.

Lemma marks_app (a b : list Event) : marks (a ++ b) = marks a ++ marks b.
Proof. apply flat_map_app. Qed.

Lemma marks_in_group (i n : nat) (seg : list Event) :
  in_group i n seg -> marks seg = [].
Proof.
  intros [H _]. induction seg as [| e seg IH]; [reflexivity |].
  destruct (H e (or_introl eq_refl)) as (j & Hj & _).
  destruct e; try discriminate; cbn [marks flat_map app];
    apply IH; intros e' He'; apply H; right; assumption.
Qed.

Lemma grouped_marks (batchSize total i : nat) (trace : list Event) :
  1 <= batchSize ->
  grouped batchSize total i trace ->
  marks trace = groups_from batchSize total i (ceil_div (total - i) batchSize).
Proof.
  intros Hb H. induction H as [i Hi | i seg rest Hi Hseg Hrest IH].
  - replace (total - i) with 0 by lia. rewrite ceil_div_zero by assumption.
    reflexivity.
  - rewrite (ceil_div_step (total - i)) by lia.
    cbn [groups_from marks flat_map app]. f_equal.
    fold (marks (seg ++ rest)).
    rewrite marks_app, (marks_in_group _ _ _ Hseg), IH.
    cbn [app]. do 2 f_equal. lia.
Qed.

Lemma nth_error_groups_from (batchSize total : nat) :
  forall (count i g : nat),
    g < count ->
    nth_error (groups_from batchSize total i count) g =
    Some (i + g * batchSize, Nat.min batchSize (total - (i + g * batchSize))).
Proof.
  induction count as [| count IH]; intros i g Hg; [lia |].
  destruct g as [| g]; cbn [groups_from nth_error].
  - rewrite Nat.add_0_r. reflexivity.
  - rewrite IH by lia. cbn [Nat.mul].
    f_equal. f_equal; [lia |]. f_equal. lia.
Qed.

Lemma length_groups_from (batchSize total : nat) :
  forall (count i : nat),
    List.length (groups_from batchSize total i count) = count.
Proof.
  induction count as [| count IH]; intros i; [reflexivity |].
  cbn [groups_from List.length]. rewrite IH. reflexivity.
Qed.

(* ================================================================== *)
(** * What one workflow counts *)
(* ================================================================== *)

(** A workflow whose [try] block throws is caught: it logs the failure,
    counts itself as failed and its promise is fulfilled. *)
Lemma thrown_is_counted_failed (lib : Library)
      (wallet : Wallet) (index total : nat) (net : Op -> nat -> NetOutcome)
      (e : Exn) :
  snd (exec net (processWallet_try lib wallet index total)) = inl e ->
  let run := exec net (processWallet lib wallet index total) in
  snd run = inr tt /\
  fst run = fst (exec net (processWallet_try lib wallet index total))
              ++ catch_steps /\
  count_success (actions (fst run)) = 0 /\
  count_failed (actions (fst run)) = 1.
Proof.
  intros Htry run. subst run. revert Htry.
  unfold processWallet. rewrite exec_try_catch, exec_try.
  destruct (L.new lib (proxy wallet) (privateKey wallet) (refCode wallet))
    as [e' | this].
  - intros _. cbn. repeat split.
  - unfold try_run, attest_run, check_steps, invite_steps, attest_pre,
      claim_steps, points_steps, success_steps, call.
    cases_workflow this net; cbn; intros H; try discriminate H;
      repeat split.
Qed.

(** A workflow counts itself at most once, and never on both sides. *)
Lemma workflow_counts (lib : Library)
      (wallet : Wallet) (index total : nat) (net : Op -> nat -> NetOutcome) :
  let acts := actions (fst (exec net (processWallet lib wallet index total))) in
  count_success acts + count_failed acts <= 1.
Proof.
  intros acts. subst acts. rewrite exec_processWallet. unfold workflow_run.
  destruct (L.new lib (proxy wallet) (privateKey wallet) (refCode wallet))
    as [e' | this].
  - cbn. lia.
  - unfold caught, try_run, attest_run, check_steps, invite_steps, attest_pre,
      claim_steps, points_steps, success_steps, catch_steps, call.
    cases_workflow this net; cbn; lia.
Qed.

(** A workflow that stops at an invalid referral code or a refused
    registration counts itself on neither side. *)
Lemma early_return_not_counted (lib : Library)
      (wallet : Wallet) (index total : nat) (net : Op -> nat -> NetOutcome)
      (this : L.t) :
  L.new lib (proxy wallet) (privateKey wallet) (refCode wallet) = inr this ->
  outcome this net OpIsWalletRegistered = inr (JBool false) ->
  (exists isValidInvite,
      outcome this net OpCheckInvite = inr isValidInvite /\
      (truthy isValidInvite = false \/
       exists registered,
         outcome this net OpRegisterWallet = inr registered /\
         truthy registered = false)) ->
  let acts := actions (fst (exec net (processWallet lib wallet index total))) in
  count_success acts = 0 /\ count_failed acts = 0.
Proof.
  intros Hnew Hreg (isValidInvite & Hinv & Hstop) acts. subst acts.
  open_workflow Hnew.
  rewrite Hreg, Hinv. cbn [is_false].
  destruct (truthy isValidInvite); cbn [negb].
  - destruct Hstop as [H | (registered & Hr & H)]; [discriminate |].
    rewrite Hr, H. cbn. auto.
  - cbn. auto.
Qed.

Lemma tally_le (env : Env) (total : nat) (ws : list Wallet) :
  forall j,
    tally count_success env total j ws + tally count_failed env total j ws
    <= List.length ws.
Proof.
  induction ws as [| w ws IH]; intros j; [cbn; lia |].
  cbn [tally List.length]. specialize (IH (S j)).
  pose proof (workflow_counts (lib env) w j total (network env j)) as H.
  cbn zeta in H. unfold solo_actions, steps_of. lia.
Qed.

Lemma nth_error_settle_points (env : Env) (total : nat) (ws : list Wallet) :
  forall (i j : nat) (w : Wallet),
    nth_error ws j = Some w ->
    nth_error (settle_points env total i ws) j =
    Some (set_point w (point_after (solo_actions env total (i + j) w) (point w))).
Proof.
  induction ws as [| w0 ws IH]; intros i j w H; [destruct j; discriminate |].
  destruct j as [| j]; cbn [nth_error settle_points] in *.
  - injection H as ->. rewrite Nat.add_0_r. reflexivity.
  - rewrite (IH (S i) j w H). do 4 f_equal; lia.
Qed.

(* ================================================================== *)
(** * Properties of processWalletsInBatches *)
(* ================================================================== *)

Lemma run_in_order_stats (env : Env) (ws : list Wallet) :
  let sh := run_in_order env (List.length ws) 0 ws (mkShared (mkStats 0 0) ws) in
  success (stats sh) = tally count_success env (List.length ws) 0 ws /\
  failed (stats sh) = tally count_failed env (List.length ws) 0 ws /\
  wallets sh = settle_points env (List.length ws) 0 ws.
Proof.
  intros sh. subst sh. rewrite stats_run_in_order. cbn [success failed stats].
  split; [reflexivity |]. split; [reflexivity |].
  pose proof (wallets_run_in_order env (List.length ws) ws [] []
                (mkShared (mkStats 0 0) ws)) as H.
  cbn [List.length app wallets] in H. rewrite !app_nil_r in H.
  apply H. reflexivity.
Qed.

(** C5.  For every list of [N] wallets and every batch size [B >= 1],
    whatever the order in which the network answers: the run ends; it
    cuts [ceil(N / B)] consecutive groups, the one numbered [g] starting
    at wallet [g * B], all of size [B] but the last, which has the
    remainder; each group is started and settles entirely before the
    next one is cut; every wallet ends with the counters and the point
    of its own workflow run alone, whatever the other workflows do; and
    a workflow whose [try] block throws is caught in [processWallet],
    logs the failure and counts itself as failed, its promise being
    fulfilled. *)
Theorem batches_partition_and_isolation (env : Env) (ws : list Wallet)
        (batchSize : nat) :
  1 <= batchSize ->
  let N := List.length ws in
  (exists scheds r, processWalletsInBatches env ws batchSize scheds = Some r) /\
  (forall scheds sh trace,
     processWalletsInBatches env ws batchSize scheds = Some (sh, trace) ->
     List.length (marks trace) = ceil_div N batchSize /\
     (forall g, g < ceil_div N batchSize ->
        nth_error (marks trace) g =
        Some (g * batchSize, Nat.min batchSize (N - g * batchSize))) /\
     (forall g, S g < ceil_div N batchSize ->
        Nat.min batchSize (N - g * batchSize) = batchSize) /\
     (forall g, S g = ceil_div N batchSize ->
        Nat.min batchSize (N - g * batchSize) = N - g * batchSize /\
        1 <= N - g * batchSize) /\
     grouped batchSize N 0 trace /\
     sh = run_in_order env N 0 ws (mkShared (mkStats 0 0) ws) /\
     success (stats sh) = tally count_success env N 0 ws /\
     failed (stats sh) = tally count_failed env N 0 ws /\
     (forall j w, nth_error ws j = Some w ->
        nth_error (wallets sh) j =
        Some (set_point w (point_after (solo_actions env N j w) (point w))))) /\
  (forall j w e,
     nth_error ws j = Some w ->
     snd (exec (network env j) (processWallet_try (lib env) w j N)) = inl e ->
     snd (exec (network env j) (processWallet (lib env) w j N)) = inr tt /\
     steps_of env N j w =
       fst (exec (network env j) (processWallet_try (lib env) w j N))
         ++ catch_steps /\
     count_success (solo_actions env N j w) = 0 /\
     count_failed (solo_actions env N j w) = 1).
Proof.
  intros HB N. split; [| split].
  - unfold processWalletsInBatches.
    apply (batches_loop_exists env N batchSize HB N 0). lia.
  - intros scheds sh trace Hrun.
    assert (Hg : grouped batchSize N 0 trace).
    { unfold processWalletsInBatches in Hrun.
      apply (batches_loop_grouped _ _ _ _ _ _ _ _ eq_refl Hrun). }
    pose proof (grouped_marks _ _ _ _ HB Hg) as Hm.
    rewrite Nat.sub_0_r in Hm.
    pose proof (processWalletsInBatches_in_order _ _ _ _ _ _ Hrun) as Hsh.
    destruct (run_in_order_stats env ws) as (Hs & Hf & Hw).
    fold N in Hs, Hf, Hw, Hsh. rewrite <- Hsh in Hs, Hf, Hw.
    split; [rewrite Hm; apply length_groups_from |].
    split; [intros g Hlt; rewrite Hm; apply nth_error_groups_from; assumption |].
    split.
    { intros g Hlt. apply ceil_div_spec in Hlt; [| assumption].
      cbn [Nat.mul] in Hlt. lia. }
    split.
    { intros g Hlast.
      assert (H1 : g < ceil_div N batchSize) by lia.
      assert (H2 : ~ S g < ceil_div N batchSize) by lia.
      rewrite ceil_div_spec in H1, H2 by assumption.
      cbn [Nat.mul] in H2. lia. }
    split; [assumption |]. split; [assumption |].
    split; [assumption |]. split; [assumption |].
    intros j w Hj. rewrite Hw.
    apply (nth_error_settle_points env N ws 0 j w Hj).
  - intros j w e Hj Hthrow.
    destruct (thrown_is_counted_failed _ _ _ _ _ _ Hthrow) as (H1 & H2 & H3 & H4).
    repeat split; assumption.
Qed.

Lemma batches_partition_and_isolation_witness :
  1 <= 2 /\
  exists sh trace,
    processWalletsInBatches env_mixed three_wallets 2 mixed_schedule
    = Some (sh, trace) /\
    marks trace = [(0, 2); (2, 1)] /\
    stats sh = mkStats 1 1 /\
    map point (wallets sh) = [JUndefined; JNum 42; JUndefined].
Proof.
  split; [lia |].
  destruct (processWalletsInBatches env_mixed three_wallets 2 mixed_schedule)
    as [[sh trace] |] eqn:Hrun; [| discriminate Hrun].
  exists sh, trace. split; [reflexivity |].
  destruct (batches_partition_and_isolation env_mixed three_wallets 2)
    as (_ & H & _); [lia |].
  destruct (H mixed_schedule sh trace Hrun)
    as (_ & _ & _ & _ & _ & Hsh & _).
  vm_compute in Hrun. injection Hrun as <- <-.
  repeat split.
Defined.

(** Whatever the schedule, a wallet whose referral code is refused is
    counted neither as a success nor as a failure. *)
Lemma bad_invite_never_counted (scheds : list (list nat)) (sh : Shared)
      (trace : list Event) :
  processWalletsInBatches env_bad_invite [sample_wallet] 10 scheds
  = Some (sh, trace) ->
  stats sh = mkStats 0 0.
Proof.
  intros H. apply processWalletsInBatches_in_order in H. rewrite H.
  reflexivity.
Qed.

(** C1 fails on the code.  One wallet, unknown to the service (404,
    "user not found"), whose referral code is refused: its workflow
    returns early, both counters stay at 0 and their sum is not the
    number of wallets. *)
Theorem aborted_workflow_is_not_counted :
  outcome sample_session net_bad_invite OpIsWalletRegistered = inr (JBool false) /\
  outcome sample_session net_bad_invite OpCheckInvite = inr (JBool false) /\
  exists sh trace,
    processWalletsInBatches env_bad_invite [sample_wallet] 10 [[0; 0]]
    = Some (sh, trace) /\
    In (EvSettle 0 true) trace /\
    success (stats sh) = 0 /\ failed (stats sh) = 0 /\
    success (stats sh) + failed (stats sh) <> List.length [sample_wallet].
Proof.
  split; [reflexivity |]. split; [reflexivity |].
  eexists. eexists. split; [vm_compute; reflexivity |].
  split; [cbn; tauto |]. cbn. repeat split. discriminate.
Qed.

(* ================================================================== *)
(** * Properties of the session operations *)
(* ================================================================== *)

(** Whether an operation throws in its log call. *)
Lemma registerWallet_throws (r : Response) :
  L.registerWallet_of (Some r) = inl TypeError <->
  (status r =? 200)%Z = false /\ truthy (data r) = true /\
  to_string_ok (data r) = false.
Proof.
  unfold L.registerWallet_of, L.registration_refused, logger.error, logger.log,
    or_else, to_string.
  destruct (status r =? 200)%Z; [split; [discriminate | intros (H & _); discriminate] |].
  destruct (truthy (data r)) eqn:Ht; cbn [truthy bindR].
  - rewrite Ht. destruct (to_string_ok (data r)); cbn [bindR];
      split; try discriminate; auto.
    intros (_ & _ & H). discriminate H.
  - cbn. split; [discriminate | intros (_ & H & _); discriminate H].
Qed.

Lemma checkNodePoints_reads (r : Response) :
  truthy (data r) = true ->
  exists d p,
    get (data r) "data" = inr d /\ get_opt d "nodePoints" = inr p /\
    L.checkNodePoints_of (Some r) =
    if truthy p && negb (to_string_ok p) then inl TypeError
    else inr (or_else p (JNum 0)).
Proof.
  intros Ht. cbn [L.checkNodePoints_of]. rewrite Ht.
  destruct (get_truthy (data r) "data" Ht) as [d Hd].
  destruct (get_opt_total d "nodePoints") as [p Hp].
  exists d, p.
  split; [assumption |]. split; [assumption |].
  rewrite Hd. cbn [bindR]. rewrite Hp. cbn [bindR].
  unfold or_else. destruct (truthy p) eqn:Htp; [| reflexivity].
  unfold logger.info, logger.log, to_string. rewrite Htp.
  destruct (to_string_ok p); reflexivity.
Qed.

(** C2 fails on the code.  Four operations return a boolean whatever
    the transport result: [checkInvite], [dailyCheckIn], [connectNode]
    and [stopNode].  [checkNodeStatus] throws a [TypeError] on a
    response whose body has no "data" field, such as a 404 carrying only
    a message, which the session's [validateStatus] lets through;
    [isWalletRegistered] throws on a 404 whose body is [null].  The
    three operations that log a part of the response throw when that
    part cannot be turned into text: [isWalletRegistered] on the message
    of a body it does not recognise, [registerWallet] on the body of a
    refusal (exactly when that body is truthy and not convertible),
    [checkNodePoints] on the points. *)
Theorem some_operations_throw :
  (forall response, exists b, L.checkInvite_of response = inr (JBool b)) /\
  (forall response, exists b, L.dailyCheckIn_of response = inr (JBool b)) /\
  (forall response, exists b, L.connectNode_of response = inr (JBool b)) /\
  (forall response, exists b, L.stopNode_of response = inr (JBool b)) /\
  L.checkNodeStatus_of (Some (mkResponse 404 no_data_body)) = inl TypeError /\
  exec net_status_404 (L.checkNodeStatus sample_session)
  = ([SCall OpCheckNodeStatus [Attempt 0]], inl TypeError) /\
  L.isWalletRegistered_of (Some (mkResponse 404 JNull)) = inl TypeError /\
  L.isWalletRegistered_of
    (Some (mkResponse 400 (JObj [("message", unprintable)]))) = inl TypeError /\
  L.registerWallet_of (Some (mkResponse 400 unprintable)) = inl TypeError /\
  L.checkNodePoints_of
    (Some (mkResponse 200 (JObj [("data", JObj [("nodePoints", unprintable)])])))
  = inl TypeError /\
  (forall r,
     L.registerWallet_of (Some r) = inl TypeError <->
     (status r =? 200)%Z = false /\ truthy (data r) = true /\
     to_string_ok (data r) = false) /\
  L.registerWallet_of None = inr (JBool false).
Proof.
  split; [exact checkInvite_total |].
  split; [exact dailyCheckIn_total |].
  split; [exact connectNode_total |].
  split; [exact stopNode_total |].
  repeat (split; [reflexivity |]).
  split; [exact registerWallet_throws | reflexivity].
Qed.

(** C7 fails on the code.  On the same response [checkNodeStatus]
    throws, the workflow has reached the node-status step, and
    [connectNode] is never requested: the exception goes to the [catch]
    block of [processWallet]. *)
Theorem connect_skipped_when_status_throws :
  let steps := fst (exec net_status_404 (processWallet sample_lib sample_wallet 0 1)) in
  outcome sample_session net_status_404 OpCheckNodeStatus = inl TypeError /\
  calls steps = [OpIsWalletRegistered; OpDailyCheckIn; OpCheckNodeStatus] /\
  In OpCheckNodeStatus (calls steps) /\
  ~ In OpConnectNode (calls steps) /\
  count_failed (actions steps) = 1.
Proof.
  cbn. repeat split; [tauto | intuition discriminate].
Qed.

(** C9, as stated, fails: a response with an empty body is a response,
    and [checkNodePoints] returns [null] on it. *)
Lemma points_null_on_empty_body :
  L.checkNodePoints_of (Some (mkResponse 200 (JStr ""))) = inr JNull /\
  ~ (forall response,
       L.checkNodePoints_of response = inr JNull <-> response = None).
Proof.
  split; [reflexivity |].
  intros H. specialize (H (Some (mkResponse 200 (JStr "")))).
  destruct H as [H _]. specialize (H eq_refl). discriminate H.
Qed.

Lemma or_else_not_null (p : JSValue) : or_else p (JNum 0) <> JNull.
Proof.
  unfold or_else. destruct (truthy p) eqn:E; [| discriminate].
  intros ->. discriminate E.
Qed.

(** C9, amended.  On a response with a non-empty body, [checkNodePoints]
    returns 0 when the points field is missing and the number itself
    when it is a number.  It returns [null] exactly when the transport
    yielded no response or the body of the response is empty (falsy).
    In a workflow that requests the points, the value the operation
    returns, [null] included, is what is written to [wallet.point]; when
    the operation throws instead (points that cannot be turned into
    text for the log), nothing is written and the workflow counts
    itself as failed. *)
Theorem checkNodePoints_result :
  (forall r d,
     truthy (data r) = true -> get (data r) "data" = inr d ->
     get_opt d "nodePoints" = inr JUndefined ->
     L.checkNodePoints_of (Some r) = inr (JNum 0)) /\
  (forall r d n,
     truthy (data r) = true -> get (data r) "data" = inr d ->
     get_opt d "nodePoints" = inr (JNum n) ->
     L.checkNodePoints_of (Some r) = inr (JNum n)) /\
  (forall response,
     L.checkNodePoints_of response = inr JNull <->
     response = None \/
     exists r, response = Some r /\ truthy (data r) = false) /\
  (forall lib wallet index total net this v,
     L.new lib (proxy wallet) (privateKey wallet) (refCode wallet) = inr this ->
     let steps := fst (exec net (processWallet lib wallet index total)) in
     In OpCheckNodePoints (calls steps) ->
     outcome this net OpCheckNodePoints = inr v ->
     In (SetPoint v) (actions steps) /\
     point_after (actions steps) (point wallet) = v /\
     count_success (actions steps) = 1 /\
     forall j sh w,
       nth_error (wallets sh) j = Some w ->
       nth_error (wallets (apply_actions j (actions steps) sh)) j =
       Some (set_point w v)) /\
  (forall lib wallet index total net this e,
     L.new lib (proxy wallet) (privateKey wallet) (refCode wallet) = inr this ->
     let steps := fst (exec net (processWallet lib wallet index total)) in
     In OpCheckNodePoints (calls steps) ->
     outcome this net OpCheckNodePoints = inl e ->
     point_after (actions steps) (point wallet) = point wallet /\
     count_success (actions steps) = 0 /\
     count_failed (actions steps) = 1).
Proof.
  split; [| split; [| split; [| split]]].
  - intros r d Ht Hd Hp.
    destruct (checkNodePoints_reads r Ht) as (d' & p & Hd' & Hp' & ->).
    assert (d' = d) by congruence. subst d'.
    assert (p = JUndefined) by congruence. subst p. reflexivity.
  - intros r d n Ht Hd Hp.
    destruct (checkNodePoints_reads r Ht) as (d' & p & Hd' & Hp' & ->).
    assert (d' = d) by congruence. subst d'.
    assert (p = JNum n) by congruence. subst p.
    unfold or_else. cbn [truthy to_string_ok negb andb].
    rewrite andb_false_r.
    destruct (n =? 0)%Z eqn:E; [| reflexivity].
    apply Z.eqb_eq in E. subst n. reflexivity.
  - intros response. split.
    + destruct response as [r |]; [| auto].
      destruct (truthy (data r)) eqn:Ht; [| eauto].
      destruct (checkNodePoints_reads r Ht) as (d & p & _ & _ & ->).
      destruct (truthy p && negb (to_string_ok p)); [discriminate |].
      intros [= H]. apply or_else_not_null in H. destruct H.
    + intros [-> | (r & -> & Ht)]; [reflexivity |].
      cbn [L.checkNodePoints_of]. rewrite Ht. reflexivity.
  - intros lib wallet index total net this v Hnew steps. subst steps.
    open_workflow Hnew.
    cases_workflow this net; cbn; intros Hin Hv;
      try (exfalso; intuition discriminate);
      try discriminate Hv; injection Hv as <-;
      (split; [tauto |]); (split; [reflexivity |]); (split; [reflexivity |]);
      intros j sh w Hw;
      apply (nth_error_update_same (fun w' => set_point w' _) _ _ _ Hw).
  - intros lib wallet index total net this e Hnew steps. subst steps.
    open_workflow Hnew.
    cases_workflow this net; cbn; intros Hin He;
      try (exfalso; intuition discriminate);
      try discriminate He; repeat split.
Qed.

Lemma checkNodePoints_result_witness :
  (truthy (JObj [("data", JObj [])]) = true /\
   L.checkNodePoints_of (Some (mkResponse 200 (JObj [("data", JObj [])])))
   = inr (JNum 0)) /\
  (In OpCheckNodePoints
      (calls (fst (exec net_ok (processWallet sample_lib sample_wallet 0 1)))) /\
   outcome sample_session net_ok OpCheckNodePoints = inr (JNum 42) /\
   point_after
     (actions (fst (exec net_ok (processWallet sample_lib sample_wallet 0 1))))
     (point sample_wallet) = JNum 42) /\
  (outcome sample_session net_unprintable_points OpCheckNodePoints
   = inl TypeError /\
   point_after
     (actions (fst (exec net_unprintable_points
                         (processWallet sample_lib sample_wallet 0 1))))
     (point sample_wallet) = point sample_wallet).
Proof.
  destruct checkNodePoints_result as (H0 & _ & _ & Hv & He).
  split; [| split].
  - split; [reflexivity |].
    apply (H0 (mkResponse 200 (JObj [("data", JObj [])])) (JObj []));
      reflexivity.
  - assert (Hin : In OpCheckNodePoints
               (calls (fst (exec net_ok
                                 (processWallet sample_lib sample_wallet 0 1)))))
      by (vm_compute; tauto).
    split; [exact Hin |]. split; [reflexivity |].
    apply (Hv sample_lib sample_wallet 0 1 net_ok sample_session (JNum 42)
              eq_refl Hin eq_refl).
  - split; [reflexivity |].
    apply (He sample_lib sample_wallet 0 1 net_unprintable_points
              sample_session TypeError eq_refl).
    + vm_compute. tauto.
    + reflexivity.
Defined.

(* ================================================================== *)
(** * The retry budget of a session *)
(* ================================================================== *)

Lemma all_requests_bind {A B} (P : Request -> Prop) (p : Proc A)
      (f : A -> Proc B) :
  all_requests P p -> (forall a, all_requests P (f a)) ->
  all_requests P (bind p f).
Proof.
  intros Hp Hf. induction p as [a | e | a k IH | op run k IH];
    cbn [bind all_requests] in *; auto.
  destruct Hp as [Hrun Hk]. split; [assumption |].
  intros response. apply IH, Hk.
Qed.

Lemma all_requests_try_catch {A} (P : Request -> Prop) (p : Proc A)
      (h : Exn -> Proc A) :
  all_requests P p -> (forall e, all_requests P (h e)) ->
  all_requests P (try_catch p h).
Proof.
  intros Hp Hh. induction p as [a | e | a k IH | op run k IH];
    cbn [try_catch all_requests] in *; auto.
  destruct Hp as [Hrun Hk]. split; [assumption |].
  intros response. apply IH, Hk.
Qed.

Lemma all_requests_lift {A} (P : Request -> Prop) (r : Res A) :
  all_requests P (lift r).
Proof. destruct r; exact I. Qed.

Lemma all_requests_exec {A} (n : nat) (net : Op -> nat -> NetOutcome)
      (p : Proc A) :
  all_requests (at_most n) p -> calls_at_most n (fst (exec net p)).
Proof.
  unfold calls_at_most.
  induction p as [a | e | a k IH | op run k IH]; cbn [all_requests exec];
    intros H.
  - constructor.
  - constructor.
  - specialize (IH H). destruct (exec net k). constructor; [exact I | exact IH].
  - destruct H as [Hrun Hk]. specialize (Hrun (net op)).
    destruct (run (net op)) as [evs response].
    specialize (IH response (Hk response)).
    destruct (exec net (k response)). constructor; assumption.
Qed.

Lemma request_at_most (this : L.t) (method url : string) :
  at_most (L.retryCount this) (L.request this method url).
Proof.
  intros net. unfold L.request, RequestHandler.makeRequest.
  apply length_attempts_loop.
Qed.

Lemma operation_requests (this : L.t) (op : Op) :
  all_requests (at_most (L.retryCount this)) (L.operation this op).
Proof.
  destruct op; cbn [L.operation];
    match goal with
    | |- all_requests _ (?f this) => unfold f, L.makeRequest
    end;
    cbn [bind all_requests];
    (split; [apply request_at_most | intros response; apply all_requests_lift]).
Qed.

Lemma new_retryCount (lib : Library) (proxy : option string)
      (privateKey refCode : string) (this : L.t) :
  L.new lib proxy privateKey refCode = inr this -> L.retryCount this = 2.
Proof.
  intros H. apply new_session in H. destruct H as (agent & address & _ & _ & ->).
  reflexivity.
Qed.

Lemma processWallet_requests (lib : Library)
      (wallet : Wallet) (index total : nat) :
  all_requests (at_most 2) (processWallet lib wallet index total).
Proof.
  unfold processWallet, processWallet_try, processWallet_catch,
    attest_and_reconnect.
  destruct (L.new lib (proxy wallet) (privateKey wallet) (refCode wallet))
    as [e | socket] eqn:Hnew; [cbn; repeat split |].
  pose proof (new_retryCount _ _ _ _ _ Hnew) as H2.
  pose proof (operation_requests socket) as Hop. rewrite H2 in Hop.
  repeat first
    [ progress cbn [lift]
    | match goal with
      | |- all_requests _ (bind (Ret ?a) ?f) =>
          change (bind (Ret a) f) with (f a); cbv beta
      end
    | apply (Hop OpIsWalletRegistered)
    | apply (Hop OpCheckInvite)
    | apply (Hop OpRegisterWallet)
    | apply (Hop OpDailyCheckIn)
    | apply (Hop OpCheckNodeStatus)
    | apply (Hop OpStopNode)
    | apply (Hop OpConnectNode)
    | apply (Hop OpCheckNodePoints)
    | exact I
    | match goal with
      | |- all_requests _ (if ?b then _ else _) => destruct b
      end
    | apply all_requests_try_catch; [| intros ?]
    | apply all_requests_bind; [| intros ?] ].
Qed.

(** C10.  A session built by the constructor has a retry budget of 2 and
    hands it to the request handler on every call, in place of the
    handler's own default of 3: no request issued through the session,
    by any of its operations or by a workflow, is attempted more than
    twice, while the handler left to its default would try three times. *)
Theorem session_retry_budget (lib : Library)
        (proxy : option string) (privateKey refCode : string) (this : L.t) :
  L.new lib proxy privateKey refCode = inr this ->
  L.retryCount this = 2 /\
  (forall method url net,
     L.request this method url net =
     RequestHandler.makeRequest net (L.finalConfig this method url) (Some 2) None /\
     List.length (attempts (fst (L.request this method url net))) <= 2) /\
  (forall op, all_requests (at_most 2) (L.operation this op)) /\
  (forall op net, calls_at_most 2 (fst (exec net (L.operation this op)))) /\
  (forall wallet index total net,
     calls_at_most 2 (fst (exec net (processWallet lib wallet index total)))) /\
  (forall net config,
     RequestHandler.makeRequest net config None None =
     RequestHandler.makeRequest net config (Some 3) (Some (Double.of_Z 2000))) /\
  attempts (fst (RequestHandler.makeRequest always_down (L.finalConfig this "get" "")
                                            None None)) = [0; 1; 2] /\
  attempts (fst (L.request this "get" "" always_down)) = [0; 1].
Proof.
  intros Hnew. pose proof (new_retryCount _ _ _ _ _ Hnew) as H2.
  pose proof (operation_requests this) as Hop. rewrite H2 in Hop.
  split; [assumption |]. split; [| split; [| split; [| split]]].
  - intros method url net. split.
    + unfold L.request. rewrite H2. reflexivity.
    + rewrite <- H2. apply request_at_most.
  - assumption.
  - intros op net. apply all_requests_exec, Hop.
  - intros wallet index total net.
    apply all_requests_exec, processWallet_requests.
  - split; [reflexivity |]. unfold L.request. rewrite H2. split; reflexivity.
Qed.

Lemma session_retry_budget_witness :
  L.new sample_lib None "k1" "ref" = inr sample_session /\
  calls_at_most 2
    (fst (exec net_ok (processWallet sample_lib sample_wallet 0 1))).
Proof.
  split; [reflexivity |].
  apply (session_retry_budget sample_lib None "k1" "ref" sample_session eq_refl).
Defined.

(* ================================================================== *)
(** * Further properties of RequestHandler.makeRequest *)
(* ================================================================== *)

(** X1.  With an empty budget a request does nothing.  Otherwise its
    trace is attempt 0, a timer, attempt 1, a timer, and so on, ending
    on an attempt: the attempts are numbered 0, 1, ..., without gap,
    there are never more of them than the retry budget, and there is
    exactly one timer between two consecutive attempts (none before the
    first, none after the last). *)
Theorem attempts_within_budget (net : nat -> NetOutcome) (config : Config)
        (retries : nat) (backoffMs : Double.t) :
  let evs := fst (RequestHandler.makeRequest net config (Some retries) (Some backoffMs)) in
  (if retries =? 0 then evs = [] else alternates 0 evs = true) /\
  exists n,
    n <= retries /\
    attempts evs = seq 0 n /\
    List.length (sleeps evs) = n - 1 /\
    (n = 0 <-> retries = 0).
Proof.
  intros evs. subst evs.
  destruct (makeRequest_shape net config retries backoffMs)
    as [[-> Hrun] | (m & (Hm & Hfail & Hstop) & Hrun)]; rewrite Hrun; cbn [fst].
  - split; [reflexivity |]. exists 0. repeat split; reflexivity.
  - split.
    + replace (retries =? 0) with false by (symmetry; apply Nat.eqb_neq; lia).
      apply (rounds_alternate (wait_after net config backoffMs) m 0).
    + exists (S m). unfold round.
      rewrite rounds_attempts, rounds_sleeps, length_map, length_seq, seq_S.
      repeat split; try lia; try reflexivity.
Qed.

(** X2.  A request returns the response of the first attempt axios
    accepts, provided it is within the budget, and returns [null]
    exactly when every attempt of the budget is rejected. *)
Theorem makeRequest_result (net : nat -> NetOutcome) (config : Config)
        (retries : nat) (backoffMs : Double.t) :
  let result := snd (RequestHandler.makeRequest net config (Some retries) (Some backoffMs)) in
  (forall response,
     result = Some response <->
     exists m, m < retries /\ (forall k, k < m -> fails net config k) /\
               axios config (net m) = inr response) /\
  (result = None <-> forall k, k < retries -> fails net config k).
Proof.
  intros result. subst result.
  destruct (makeRequest_shape net config retries backoffMs)
    as [[-> Hrun] | (m & (Hm & Hfail & Hstop) & Hrun)]; rewrite Hrun; cbn [snd].
  - split.
    + intros response. split; [discriminate |]. intros (m & Hm & _). lia.
    + split; [intros _ k Hk; lia | reflexivity].
  - unfold outcome_at in *. split.
    + intros response. split.
      * destruct (axios config (net m)) as [error | r] eqn:E; [discriminate |].
        intros [= <-]. exists m. auto.
      * intros (m' & Hm' & Hfail' & Hax).
        destruct (Nat.lt_trichotomy m m') as [Hlt | [<- | Hgt]].
        -- destruct (Hfail' m Hlt) as [error He]. rewrite He in Hstop.
           destruct Hstop as [H | H]; [congruence | lia].
        -- rewrite Hax. reflexivity.
        -- destruct (Hfail m' Hgt) as [error He]. congruence.
    + split.
      * destruct (axios config (net m)) as [error | r] eqn:E; [| discriminate].
        intros _ k Hk. destruct Hstop as [H | H]; [congruence |].
        destruct (Nat.eq_dec k m) as [-> | Hne].
        -- exists error. assumption.
        -- apply Hfail. lia.
      * intros Hall. destruct (Hall m Hm) as [error ->]. reflexivity.
Qed.

(* ================================================================== *)
(** * Further properties of a session's requests *)
(* ================================================================== *)

(** A response returned by a request is one axios accepted. *)
Lemma returned_was_accepted (net : nat -> NetOutcome) (config : Config)
      (retries : nat) (backoffMs : Double.t) (response : Response) :
  snd (RequestHandler.makeRequest net config (Some retries) (Some backoffMs))
  = Some response ->
  exists m, axios config (net m) = inr response.
Proof.
  destruct (makeRequest_shape net config retries backoffMs)
    as [[-> Hrun] | (m & _ & Hrun)]; rewrite Hrun; cbn [snd];
    [discriminate |].
  unfold outcome_at.
  destruct (axios config (net m)) as [error | r] eqn:E; [discriminate |].
  intros [= <-]. exists m. assumption.
Qed.

Lemma request_default_backoff (this : L.t) (method url : string)
      (net : nat -> NetOutcome) :
  L.request this method url net =
  RequestHandler.makeRequest net (L.finalConfig this method url)
                             (Some (L.retryCount this)) (Some (Double.of_Z 2000)).
Proof. reflexivity. Qed.

(** X3.  No operation of a session is ever handed a response with a
    status of 500 or more: such responses are rejected by axios and
    retried, and the request ends in [null] if they persist. *)
Theorem session_never_returns_5xx (lib : Library)
        (proxy : option string) (privateKey refCode : string) (this : L.t)
        (method url : string) (net : nat -> NetOutcome) (response : Response) :
  L.new lib proxy privateKey refCode = inr this ->
  snd (L.request this method url net) = Some response ->
  (status response < 500)%Z.
Proof.
  intros Hnew Hres. rewrite request_default_backoff in Hres.
  apply returned_was_accepted in Hres. destruct Hres as (m & Hax).
  unfold axios in Hax.
  rewrite (finalConfig_validateStatus _ _ _ _ method url _ Hnew) in Hax.
  cbn [validateStatus session_config] in Hax.
  destruct (net m) as [| r]; [discriminate |].
  destruct (status r <? 500)%Z eqn:E; [| discriminate].
  injection Hax as <-. apply Z.ltb_lt. assumption.
Qed.

Lemma session_never_returns_5xx_witness :
  L.new sample_lib None "k1" "ref" = inr sample_session /\
  snd (L.request sample_session "get" "" (net_status_404 OpCheckNodeStatus))
  = Some (mkResponse 404 no_data_body) /\
  (404 < 500)%Z.
Proof.
  split; [reflexivity |]. split; [reflexivity |].
  apply (session_never_returns_5xx sample_lib None "k1" "ref" sample_session
           "get" "" (net_status_404 OpCheckNodeStatus)
           (mkResponse 404 no_data_body)); reflexivity.
Defined.

(** X4.  With its budget of 2 a session never backs off exponentially: a
    request waits exactly once, 2000 ms, when its first attempt is
    rejected (with status 500 or otherwise), and not at all when it is
    accepted. *)
Theorem session_waits_2000 (lib : Library)
        (proxy : option string) (privateKey refCode : string) (this : L.t)
        (method url : string) (net : nat -> NetOutcome) :
  L.new lib proxy privateKey refCode = inr this ->
  sleeps (fst (L.request this method url net)) =
  match axios (L.finalConfig this method url) (net 0) with
  | inl _ => [Double.of_Z 2000]
  | inr _ => []
  end.
Proof.
  intros Hnew. unfold L.request.
  rewrite (new_retryCount _ _ _ _ _ Hnew).
  unfold RequestHandler.makeRequest. cbn [RequestHandler.loop Nat.ltb Nat.leb Nat.eqb Nat.sub].
  destruct (axios (L.finalConfig this method url) (net 0)) as [e0 | r0];
    [| reflexivity].
  destruct (axios (L.finalConfig this method url) (net 1)) as [e1 | r1];
    destruct (is500 e0); try destruct (is500 e1); reflexivity.
Qed.

Lemma session_waits_2000_witness :
  L.new sample_lib None "k1" "ref" = inr sample_session /\
  sleeps (fst (L.request sample_session "get" "" always_500)) = [Double.of_Z 2000].
Proof.
  split; [reflexivity |].
  apply (session_waits_2000 sample_lib None "k1" "ref" sample_session
           "get" "" always_500 eq_refl).
Defined.

(* ================================================================== *)
(** * Further properties of processWallet *)
(* ================================================================== *)

Ltac unfold_workflow :=
  unfold caught, try_run, attest_run, check_steps, invite_steps,
    attest_pre, claim_steps, points_steps, success_steps, catch_steps, call.

(** Every way a workflow can go, with its steps spelled out. *)
Ltac all_runs lib wallet net :=
  rewrite ?exec_processWallet, ?exec_try; unfold workflow_run;
  let this := fresh "this" in
  destruct (L.new lib (proxy wallet) (privateKey wallet) (refCode wallet))
    as [? | this];
  [| unfold_workflow; cases_workflow this net].

(** X5.  The promise returned by [processWallet] is always fulfilled:
    whatever the key, the network and the responses, no exception leaves
    the function. *)
Theorem processWallet_never_rejects (lib : Library)
        (wallet : Wallet) (index total : nat) (net : Op -> nat -> NetOutcome) :
  snd (exec net (processWallet lib wallet index total)) = inr tt.
Proof. all_runs lib wallet net; reflexivity. Qed.

(** X6.  A wallet whose private key is rejected sends no request at all;
    it is counted as failed, once, and its point is left as it was. *)
Theorem rejected_key_fails_offline (lib : Library)
        (wallet : Wallet) (index total : nat) (net : Op -> nat -> NetOutcome) :
  wallet_address lib (privateKey wallet) = None ->
  let steps := fst (exec net (processWallet lib wallet index total)) in
  calls steps = [] /\
  count_failed (actions steps) = 1 /\
  count_success (actions steps) = 0 /\
  point_after (actions steps) (point wallet) = point wallet.
Proof.
  intros Hkey steps. subst steps.
  rewrite exec_processWallet. unfold workflow_run, L.new.
  destruct (httpsAgent_entry lib (proxy wallet)); cbn [bindR];
    rewrite ?Hkey; repeat split.
Qed.

Lemma rejected_key_fails_offline_witness :
  wallet_address sample_lib "" = None /\
  calls (fst (exec net_ok (processWallet sample_lib
                             (mkWallet "" "" None "ref" (JNum 7)) 0 1))) = [].
Proof.
  split; [reflexivity |].
  apply (rejected_key_fails_offline sample_lib
           (mkWallet "" "" None "ref" (JNum 7)) 0 1 net_ok eq_refl).
Defined.

Lemma total_attempts_bound (n : nat) (steps : list Step) :
  calls_at_most n steps ->
  total_attempts steps <= n * List.length (calls steps).
Proof.
  unfold calls_at_most, total_attempts.
  induction 1 as [| s steps Hs _ IH]; [cbn; lia |].
  unfold calls, list_sum in *. destruct s as [op evs | a]; cbn in *.
  - rewrite Nat.mul_succ_r. lia.
  - lia.
Qed.

(** X7.  A workflow requests the operations in the fixed order
    registration check, referral check, registration, daily check-in,
    node status, stop, start, points, leaving some out but never going
    back: each operation is requested at most once, so a workflow makes
    at most 8 requests and sends at most 16 HTTP requests. *)
Theorem workflow_follows_order (lib : Library)
        (wallet : Wallet) (index total : nat) (net : Op -> nat -> NetOutcome) :
  let steps := fst (exec net (processWallet lib wallet index total)) in
  subseq (calls steps) workflow_order = true /\
  NoDup (calls steps) /\
  List.length (calls steps) <= 8 /\
  total_attempts steps <= 16.
Proof.
  intros steps.
  assert (H : subseq (calls steps) workflow_order = true /\
              NoDup (calls steps) /\ List.length (calls steps) <= 8).
  { subst steps. all_runs lib wallet net; cbn;
      (split; [reflexivity |]); (split; [| lia]);
      repeat (constructor; [cbn; intuition discriminate |]); constructor. }
  destruct H as (H1 & H2 & H3). repeat split; try assumption.
  pose proof (total_attempts_bound 2 steps
                (all_requests_exec 2 net _
                   (processWallet_requests lib wallet index total))) as H.
  fold steps in H. lia.
Qed.

(** The same cases, keeping the outcome of each operation at hand. *)
Ltac cases_workflow_eq this net :=
  let isRegistered := fresh "isRegistered" in
  let isValidInvite := fresh "isValidInvite" in
  let registered := fresh "registered" in
  let isRunning := fresh "isRunning" in
  let points := fresh "points" in
  let status_eq := 
    (destruct (outcome this net OpCheckNodeStatus) as [? | isRunning] eqn:?;
     [| destruct (truthy isRunning);
        destruct (outcome this net OpCheckNodePoints) as [? | points] eqn:?]) in
  destruct (outcome this net OpIsWalletRegistered) as [? | isRegistered] eqn:?;
  [| destruct (is_false isRegistered);
     [destruct (outcome this net OpCheckInvite) as [? | isValidInvite] eqn:?;
      [| destruct (negb (truthy isValidInvite));
         [| destruct (outcome this net OpRegisterWallet) as [? | registered] eqn:?;
            [| destruct (negb (truthy registered)); [| status_eq]]]]
     | status_eq]].

(** X8.  A workflow counts itself as a success exactly when it got as
    far as the points query and did not fail, that is, when the query
    returned.  Only then is [wallet.point] written, with the value the
    query returned; a workflow that does not count itself as a success
    leaves the point as it was. *)
Theorem success_means_points_queried (lib : Library)
        (wallet : Wallet) (index total : nat) (net : Op -> nat -> NetOutcome) :
  let steps := fst (exec net (processWallet lib wallet index total)) in
  (count_success (actions steps) = 1 <->
   In OpCheckNodePoints (calls steps) /\ count_failed (actions steps) = 0) /\
  (count_success (actions steps) = 1 <->
   exists this v,
     L.new lib (proxy wallet) (privateKey wallet) (refCode wallet) = inr this /\
     In OpCheckNodePoints (calls steps) /\
     outcome this net OpCheckNodePoints = inr v /\
     In (SetPoint v) (actions steps) /\
     point_after (actions steps) (point wallet) = v) /\
  (count_success (actions steps) <> 1 ->
   count_success (actions steps) = 0 /\
   (forall v, ~ In (SetPoint v) (actions steps)) /\
   point_after (actions steps) (point wallet) = point wallet).
Proof.
  intros steps. subst steps.
  rewrite exec_processWallet. unfold workflow_run.
  destruct (L.new lib (proxy wallet) (privateKey wallet) (refCode wallet))
    as [e | this].
  { cbn. split; [| split].
    - split; [discriminate | intros ([] & _)].
    - split; [discriminate | intros (t & v & H & _); discriminate H].
    - intros _. repeat split. intros v Hv. intuition discriminate. }
  unfold_workflow.
  cases_workflow_eq this net; cbn.
  all: split;
    [split;
     [intros H; first [discriminate H | (split; [tauto | reflexivity])]
     | intros (Hin & Hf);
       first [reflexivity | discriminate Hf | (exfalso; intuition discriminate)]] |].
  all: split;
    [split;
     [intros H;
      first [discriminate H
            | (exists this; eexists; repeat split; try eassumption; tauto)]
     | intros (t & v & Ht & Hin & Hv & _); injection Ht as <-;
       first [reflexivity
             | (unfold outcome in *; cbn [L.result_of] in *; congruence)
             | (exfalso; intuition discriminate)]] |].
  all: intros H; try (exfalso; apply H; reflexivity).
  all: (split; [reflexivity |]); (split; [| reflexivity]).
  all: intros v Hv; intuition discriminate.
Qed.

Lemma success_means_points_queried_witness :
  In OpCheckNodePoints
     (calls (fst (exec net_unprintable_points
                       (processWallet sample_lib sample_wallet 0 1)))) /\
  count_success
    (actions (fst (exec net_unprintable_points
                        (processWallet sample_lib sample_wallet 0 1)))) = 0 /\
  point_after
    (actions (fst (exec net_unprintable_points
                        (processWallet sample_lib sample_wallet 0 1))))
    (point sample_wallet) = point sample_wallet.
Proof.
  split; [vm_compute; tauto |].
  destruct (success_means_points_queried sample_lib sample_wallet 0 1
              net_unprintable_points) as (_ & _ & H).
  destruct H as (H0 & _ & Hp); [vm_compute; discriminate |].
  split; assumption.
Defined.

(** X9.  A workflow counts itself as failed exactly when its [try] block
    throws, and then never as a success. *)
Theorem failed_means_thrown (lib : Library)
        (wallet : Wallet) (index total : nat) (net : Op -> nat -> NetOutcome) :
  let acts := actions (fst (exec net (processWallet lib wallet index total))) in
  (count_failed acts = 1 <->
   exists e, snd (exec net (processWallet_try lib wallet index total)) = inl e) /\
  (count_failed acts = 1 -> count_success acts = 0).
Proof.
  intros acts. subst acts.
  all_runs lib wallet net; cbn;
    (split; [split; [intros H; try discriminate H; eauto
                    | intros [err H]; try discriminate H; reflexivity]
            | intros H; try discriminate H; reflexivity]).
Qed.

Lemma is_false_true (v : JSValue) : is_false v = true -> v = JBool false.
Proof. destruct v as [| | [] | | | |]; cbn; intros H; try discriminate; reflexivity. Qed.

(** X10.  A workflow counts itself on neither side exactly when the
    wallet is reported unregistered and then either the referral check
    returns a falsy value, or it returns a truthy one and the
    registration returns a falsy value; in every other case, an
    operation that throws included, it counts itself exactly once. *)
Theorem uncounted_means_early_return (lib : Library)
        (wallet : Wallet) (index total : nat) (net : Op -> nat -> NetOutcome) :
  let acts := actions (fst (exec net (processWallet lib wallet index total))) in
  (count_success acts + count_failed acts = 0 <->
   exists this isValidInvite,
     L.new lib (proxy wallet) (privateKey wallet) (refCode wallet) = inr this /\
     outcome this net OpIsWalletRegistered = inr (JBool false) /\
     outcome this net OpCheckInvite = inr isValidInvite /\
     (truthy isValidInvite = false \/
      exists registered,
        truthy isValidInvite = true /\
        outcome this net OpRegisterWallet = inr registered /\
        truthy registered = false)) /\
  (count_success acts + count_failed acts <> 0 ->
   count_success acts + count_failed acts = 1).
Proof.
  intros acts. subst acts. rewrite exec_processWallet. unfold workflow_run.
  destruct (L.new lib (proxy wallet) (privateKey wallet) (refCode wallet))
    as [e | this] eqn:Hnew.
  { split; [| intros _; reflexivity].
    split; [intros H; discriminate H | intros (t & i & H & _); discriminate H]. }
  unfold_workflow.
  destruct (outcome this net OpIsWalletRegistered) as [e | v] eqn:Hreg.
  { split; [| intros _; reflexivity].
    split; [intros H; discriminate H |].
    intros (t & i & Ht & H & _). injection Ht as <-. congruence. }
  destruct (is_false v) eqn:Hf.
  - apply is_false_true in Hf. subst v.
    destruct (outcome this net OpCheckInvite) as [e | inv] eqn:Hinv.
    { split; [| intros _; reflexivity].
      split; [intros H; discriminate H |].
      intros (t & i & Ht & _ & Hi & _). injection Ht as <-. congruence. }
    destruct (truthy inv) eqn:Hi; cbn [negb].
    + destruct (outcome this net OpRegisterWallet) as [e | reg] eqn:Hr.
      { split; [| intros _; reflexivity].
        split; [intros H; discriminate H |].
        intros (t & i & Ht & _ & Hi' & [Hfalse | (r & _ & Hr' & _)]);
          injection Ht as <-; congruence. }
      destruct (truthy reg) eqn:Htr; cbn [negb].
      * split_status this net; (split; [| intros _; reflexivity]);
          (split; [intros H; discriminate H |]);
          intros (t & i & Ht & _ & Hi' & [Hfalse | (r & _ & Hr' & Hrf)]);
          injection Ht as <-; congruence.
      * split; [| intros H; exfalso; apply H; reflexivity].
        split; [| intros _; reflexivity]. intros _.
        exists this, inv. split; [reflexivity |].
        split; [assumption |]. split; [assumption |].
        right. exists reg. auto.
    + split; [| intros H; exfalso; apply H; reflexivity].
      split; [| intros _; reflexivity]. intros _.
      exists this, inv. split; [reflexivity |].
      split; [assumption |]. split; [assumption |].
      left. assumption.
  - split_status this net; (split; [| intros _; reflexivity]);
      (split; [intros H; discriminate H |]);
      intros (t & i & Ht & H & _); injection Ht as <-; rewrite Hreg in H;
      injection H as ->; discriminate Hf.
Qed.

Lemma uncounted_means_early_return_witness :
  count_success
    (actions (fst (exec net_unprintable_refusal
                        (processWallet sample_lib sample_wallet 0 1))))
  + count_failed
      (actions (fst (exec net_unprintable_refusal
                          (processWallet sample_lib sample_wallet 0 1))))
  = 1.
Proof.
  apply (uncounted_means_early_return sample_lib sample_wallet 0 1
           net_unprintable_refusal).
  vm_compute. discriminate.
Defined.

(** X11.  Only an explicit [null] start time means "not running": when
    the node-status answer carries a "data" object whose "startTimestamp"
    is missing (or is anything but [null]), the node is taken as running
    and a workflow that reaches the step asks to stop it. *)
Theorem missing_start_time_is_running (lib : Library)
        (wallet : Wallet) (index total : nat) (net : Op -> nat -> NetOutcome)
        (this : L.t) (st : Z) (body dfields : list (string * JSValue)) :
  L.new lib (proxy wallet) (privateKey wallet) (refCode wallet) = inr this ->
  transport this net OpCheckNodeStatus = Some (mkResponse st (JObj body)) ->
  lookup "data" body = JObj dfields ->
  lookup "startTimestamp" dfields <> JNull ->
  outcome this net OpCheckNodeStatus = inr (JBool true) /\
  let cs := calls (fst (exec net (processWallet lib wallet index total))) in
  (In OpCheckNodeStatus cs -> In OpStopNode cs).
Proof.
  intros Hnew Htr Hdata Hts.
  assert (Hout : outcome this net OpCheckNodeStatus = inr (JBool true)).
  { unfold outcome. rewrite Htr. cbn [L.result_of L.checkNodeStatus_of data truthy get bindR].
    rewrite Hdata. cbn [get bindR].
    destruct (lookup "startTimestamp" dfields); try reflexivity. congruence. }
  split; [assumption |]. intros cs Hin. subst cs.
  destruct (node_status_step lib wallet index total net this Hnew Hin)
    as (H & _). destruct (H Hout) as (before & after & -> & _).
  apply in_or_app. right. right. left. reflexivity.
Qed.

Lemma missing_start_time_is_running_witness :
  L.new sample_lib (proxy sample_wallet) (privateKey sample_wallet)
        (refCode sample_wallet) = inr sample_session /\
  transport sample_session net_no_start_time OpCheckNodeStatus
  = Some (mkResponse 200 (JObj [("data", JObj [])])) /\
  lookup "startTimestamp" [] <> JNull /\
  outcome sample_session net_no_start_time OpCheckNodeStatus = inr (JBool true).
Proof.
  split; [reflexivity |]. split; [reflexivity |].
  split; [discriminate |].
  apply (missing_start_time_is_running sample_lib sample_wallet 0 1
           net_no_start_time sample_session 200 [("data", JObj [])] []);
    [reflexivity | reflexivity | reflexivity | discriminate].
Defined.

(** X12.  What the daily check-in, the stop and the start requests
    yield is never looked at: two networks on which the five other
    operations of the wallet's session have the same outcome lead its
    workflow to the same requests in the same order, to the same count
    and to the same point. *)
Theorem absorbed_failures (lib : Library)
        (wallet : Wallet) (index total : nat) (net1 net2 : Op -> nat -> NetOutcome) :
  (forall this op,
     L.new lib (proxy wallet) (privateKey wallet) (refCode wallet) = inr this ->
     op = OpIsWalletRegistered \/ op = OpCheckInvite \/
     op = OpRegisterWallet \/ op = OpCheckNodeStatus \/
     op = OpCheckNodePoints ->
     outcome this net1 op = outcome this net2 op) ->
  let steps1 := fst (exec net1 (processWallet lib wallet index total)) in
  let steps2 := fst (exec net2 (processWallet lib wallet index total)) in
  calls steps1 = calls steps2 /\
  count_success (actions steps1) = count_success (actions steps2) /\
  count_failed (actions steps1) = count_failed (actions steps2) /\
  point_after (actions steps1) (point wallet)
  = point_after (actions steps2) (point wallet).
Proof.
  intros Hagree steps1 steps2. subst steps1 steps2.
  rewrite !exec_processWallet. unfold workflow_run.
  destruct (L.new lib (proxy wallet) (privateKey wallet) (refCode wallet))
    as [e | this] eqn:Hnew; [repeat split |].
  unfold_workflow.
  rewrite <- (Hagree this OpIsWalletRegistered eq_refl) by auto.
  rewrite <- (Hagree this OpCheckInvite eq_refl) by auto.
  rewrite <- (Hagree this OpRegisterWallet eq_refl) by auto 6.
  rewrite <- (Hagree this OpCheckNodeStatus eq_refl) by auto 6.
  rewrite <- (Hagree this OpCheckNodePoints eq_refl) by auto 6.
  cases_workflow this net1; repeat split.
Qed.

Lemma absorbed_failures_witness :
  calls (fst (exec net_ok (processWallet sample_lib sample_wallet 0 1))) =
  calls (fst (exec (fun op k => match op with
                                | OpDailyCheckIn | OpStopNode | OpConnectNode => NetFail
                                | _ => net_ok op k
                                end)
                   (processWallet sample_lib sample_wallet 0 1))) /\
  point_after
    (actions (fst (exec (fun op k => match op with
                                     | OpDailyCheckIn | OpStopNode | OpConnectNode =>
                                         NetFail
                                     | _ => net_ok op k
                                     end)
                        (processWallet sample_lib sample_wallet 0 1))))
    (point sample_wallet) = JNum 42.
Proof.
  destruct (absorbed_failures sample_lib sample_wallet 0 1 net_ok
              (fun op k => match op with
                           | OpDailyCheckIn | OpStopNode | OpConnectNode => NetFail
                           | _ => net_ok op k
                           end)) as (Hcalls & _ & _ & Hpoint).
  - intros this op _ [-> | [-> | [-> | [-> | ->]]]]; reflexivity.
  - split; [exact Hcalls |]. rewrite <- Hpoint. reflexivity.
Defined.

(* ================================================================== *)
(** * Further properties of processWalletsInBatches *)
(* ================================================================== *)

(** X13.  The counters and the rows a run ends with depend neither on
    the order in which the network answers nor on the batch size: any
    two runs of the same wallets against the same network that end, end
    in the same state. *)
Theorem outcome_independent_of_schedule (env : Env) (ws : list Wallet)
        (batchSize1 batchSize2 : nat) (scheds1 scheds2 : list (list nat))
        (sh1 sh2 : Shared) (trace1 trace2 : list Event) :
  processWalletsInBatches env ws batchSize1 scheds1 = Some (sh1, trace1) ->
  processWalletsInBatches env ws batchSize2 scheds2 = Some (sh2, trace2) ->
  sh1 = sh2.
Proof.
  intros H1 H2.
  apply processWalletsInBatches_in_order in H1.
  apply processWalletsInBatches_in_order in H2. congruence.
Qed.

Lemma outcome_independent_of_schedule_witness :
  exists sh1 sh2 trace1 trace2,
    processWalletsInBatches env_mixed three_wallets 2 mixed_schedule
    = Some (sh1, trace1) /\
    processWalletsInBatches env_mixed three_wallets 3 mixed_schedule_one_group
    = Some (sh2, trace2) /\
    trace1 <> trace2 /\ sh1 = sh2.
Proof.
  destruct (processWalletsInBatches env_mixed three_wallets 2 mixed_schedule)
    as [[sh1 trace1] |] eqn:H1; [| discriminate H1].
  destruct (processWalletsInBatches env_mixed three_wallets 3
                                    mixed_schedule_one_group)
    as [[sh2 trace2] |] eqn:H2; [| discriminate H2].
  exists sh1, sh2, trace1, trace2.
  split; [reflexivity |]. split; [reflexivity |]. split.
  - vm_compute in H1, H2. injection H1 as _ <-. injection H2 as _ <-.
    discriminate.
  - apply (outcome_independent_of_schedule env_mixed three_wallets 2 3
             mixed_schedule mixed_schedule_one_group sh1 sh2 trace1 trace2 H1 H2).
Defined.

Lemma identity_settle_points (env : Env) (total : nat) (ws : list Wallet) :
  forall j, map identity_of (settle_points env total j ws) = map identity_of ws.
Proof.
  induction ws as [| w ws IH]; intros j; [reflexivity |].
  cbn [settle_points map]. rewrite IH. reflexivity.
Qed.

(** X14.  A run never adds, drops or reorders rows and never changes the
    address, the private key, the proxy or the referral code of a row:
    the point is the only field it writes. *)
Theorem run_keeps_rows (env : Env) (ws : list Wallet) (batchSize : nat)
        (scheds : list (list nat)) (sh : Shared) (trace : list Event) :
  processWalletsInBatches env ws batchSize scheds = Some (sh, trace) ->
  map identity_of (wallets sh) = map identity_of ws /\
  List.length (wallets sh) = List.length ws.
Proof.
  intros H. apply processWalletsInBatches_in_order in H.
  destruct (run_in_order_stats env ws) as (_ & _ & Hw).
  cbn zeta in Hw. rewrite <- H in Hw. rewrite Hw.
  split; [apply identity_settle_points | apply length_settle_points].
Qed.

Lemma run_keeps_rows_witness :
  exists sh trace,
    processWalletsInBatches env_mixed three_wallets 2 mixed_schedule
    = Some (sh, trace) /\
    map identity_of (wallets sh) = map identity_of three_wallets.
Proof.
  destruct (processWalletsInBatches env_mixed three_wallets 2 mixed_schedule)
    as [[sh trace] |] eqn:H; [| discriminate H].
  exists sh, trace. split; [reflexivity |].
  apply (run_keeps_rows env_mixed three_wallets 2 mixed_schedule sh trace H).
Defined.

Lemma tally_all_counted (env : Env) (total : nat) (ws : list Wallet) :
  forall i,
    (forall j w, nth_error ws j = Some w ->
       count_success (solo_actions env total (i + j) w)
       + count_failed (solo_actions env total (i + j) w) = 1) ->
    tally count_success env total i ws + tally count_failed env total i ws
    = List.length ws.
Proof.
  induction ws as [| w ws IH]; intros i H; [reflexivity |].
  cbn [tally List.length].
  pose proof (H 0 w eq_refl) as H0. rewrite Nat.add_0_r in H0.
  specialize (IH (S i)).
  rewrite <- IH.
  - lia.
  - intros j w' Hj. replace (S i + j) with (i + S j) by lia.
    apply (H (S j) w' Hj).
Qed.

(** X15.  When a run ends the counters never add up to more than the
    number of wallets, and they add up to exactly that number when every
    workflow counted itself (none returned early). *)
Theorem counters_bounded (env : Env) (ws : list Wallet) (batchSize : nat)
        (scheds : list (list nat)) (sh : Shared) (trace : list Event) :
  processWalletsInBatches env ws batchSize scheds = Some (sh, trace) ->
  success (stats sh) + failed (stats sh) <= List.length ws /\
  ((forall j w, nth_error ws j = Some w ->
      count_success (solo_actions env (List.length ws) j w)
      + count_failed (solo_actions env (List.length ws) j w) = 1) ->
   success (stats sh) + failed (stats sh) = List.length ws).
Proof.
  intros H. apply processWalletsInBatches_in_order in H.
  destruct (run_in_order_stats env ws) as (Hs & Hf & _).
  cbn zeta in Hs, Hf. rewrite <- H in Hs, Hf. rewrite Hs, Hf.
  split; [apply tally_le |].
  intros Hall. apply tally_all_counted. exact Hall.
Qed.

Lemma counters_bounded_witness :
  exists sh trace,
    processWalletsInBatches env_mixed three_wallets 2 mixed_schedule
    = Some (sh, trace) /\
    success (stats sh) + failed (stats sh) <= 3.
Proof.
  destruct (processWalletsInBatches env_mixed three_wallets 2 mixed_schedule)
    as [[sh trace] |] eqn:H; [| discriminate H].
  exists sh, trace. split; [reflexivity |].
  apply (counters_bounded env_mixed three_wallets 2 mixed_schedule sh trace H).
Defined.

(** With no wallet the run ends at once, whatever the batch size: no
    group is cut, nothing is requested and both counters are 0. *)
Lemma allSettled_empty (env : Env) (total i : nat) (sched : list nat)
      (sh : Shared) (r : Shared * list Event) :
  allSettled env total i [] sched sh = Some r -> r = (sh, []).
Proof.
  unfold allSettled. cbn [launch].
  destruct sched as [| pos sched]; cbn [run_schedule].
  - cbn. intros [= <-]. reflexivity.
  - unfold resume. destruct pos; discriminate.
Qed.

Lemma zero_batch_loops (env : Env) (total : nat) (scheds : list (list nat)) :
  forall i sh, i < total -> batches_loop env total 0 scheds i sh = None.
Proof.
  induction scheds as [| sched rest IH]; intros i sh Hi;
    rewrite batches_loop_eq; apply Nat.ltb_lt in Hi; rewrite Hi;
    [reflexivity |].
  cbn zeta. unfold slice. replace (i + 0 - i) with 0 by lia. cbn [firstn].
  destruct (allSettled env total i [] sched sh) as [r |] eqn:Hall;
    [| reflexivity].
  apply allSettled_empty in Hall. subst r.
  rewrite IH; [reflexivity |]. apply Nat.ltb_lt in Hi. lia.
Qed.

(** X16.  With a batch size of 0 and at least one wallet the loop never
    ends: it cuts empty groups for ever, so no run, however long, yields
    a result. *)
Theorem zero_batch_size_never_ends (env : Env) (ws : list Wallet)
        (scheds : list (list nat)) :
  ws <> [] ->
  processWalletsInBatches env ws 0 scheds = None.
Proof.
  intros Hws. unfold processWalletsInBatches.
  apply zero_batch_loops. destruct ws; [congruence | cbn; lia].
Qed.

Lemma zero_batch_size_never_ends_witness :
  three_wallets <> [] /\
  processWalletsInBatches env_mixed three_wallets 0 mixed_schedule = None.
Proof.
  split; [discriminate |].
  apply (zero_batch_size_never_ends env_mixed three_wallets mixed_schedule).
  discriminate.
Defined.

Lemma no_points_query_keeps_point (lib : Library)
      (wallet : Wallet) (index total : nat) (net : Op -> nat -> NetOutcome) :
  let steps := fst (exec net (processWallet lib wallet index total)) in
  ~ In OpCheckNodePoints (calls steps) ->
  point_after (actions steps) (point wallet) = point wallet.
Proof.
  intros steps. subst steps.
  all_runs lib wallet net; cbn; intros H; try reflexivity;
    exfalso; apply H; tauto.
Qed.

(** X17.  When a run ends, the row of a wallet whose workflow did not
    get as far as the points query (rejected key, exception, refused
    referral code or registration) is exactly as it was loaded. *)
Theorem unfinished_wallet_row_untouched (env : Env) (ws : list Wallet)
        (batchSize : nat) (scheds : list (list nat)) (sh : Shared)
        (trace : list Event) (j : nat) (w : Wallet) :
  processWalletsInBatches env ws batchSize scheds = Some (sh, trace) ->
  nth_error ws j = Some w ->
  ~ In OpCheckNodePoints (calls (steps_of env (List.length ws) j w)) ->
  nth_error (wallets sh) j = Some w.
Proof.
  intros H Hj Hno. apply processWalletsInBatches_in_order in H.
  destruct (run_in_order_stats env ws) as (_ & _ & Hw).
  cbn zeta in Hw. rewrite <- H in Hw. rewrite Hw.
  rewrite (nth_error_settle_points env _ ws 0 j w Hj). cbn [Nat.add].
  unfold solo_actions, steps_of in *.
  rewrite (no_points_query_keeps_point _ _ _ _ _ Hno).
  rewrite set_point_same. reflexivity.
Qed.

Lemma unfinished_wallet_row_untouched_witness :
  exists sh trace,
    processWalletsInBatches env_mixed three_wallets 2 mixed_schedule
    = Some (sh, trace) /\
    nth_error three_wallets 2 = Some sample_wallet /\
    nth_error (wallets sh) 2 = Some sample_wallet.
Proof.
  destruct (processWalletsInBatches env_mixed three_wallets 2 mixed_schedule)
    as [[sh trace] |] eqn:H; [| discriminate H].
  exists sh, trace. split; [reflexivity |]. split; [reflexivity |].
  apply (unfinished_wallet_row_untouched env_mixed three_wallets 2
           mixed_schedule sh trace 2 sample_wallet H eq_refl).
  cbn. intuition discriminate.
Defined.

(* ================================================================== *)
(** * Properties of the driver and of the spreadsheet functions *)
(* ================================================================== *)

Lemma groups_from_sizes (batchSize total : nat) :
  forall count i,
    Forall (fun m => snd m <= batchSize) (groups_from batchSize total i count).
Proof.
  induction count as [| count IH]; intros i; constructor.
  - cbn [snd]. apply Nat.le_min_l.
  - apply IH.
Qed.

(** The last timer of a pass: [delay(120 * 60)]. *)
Lemma two_hours :
  delay (Double.mul (Double.of_Z 120) (Double.of_Z 60))
  = Sleep (Double.of_Z 7200000).
Proof. vm_compute. reflexivity. Qed.

(** X19.  When at least one wallet is loaded, [run] processes the
    wallets in groups of at most 10 and never exits with an error,
    however many workflows fail: it reports the counters of the
    workflows, writes back (when the file can be written) every row with
    the point its own workflow left, a falsy point being written as 0,
    and ends on one timer of 7 200 000 ms. *)
Theorem run_persists_points (env : Env) (disk : Disk) (ws : list Wallet) :
  readWalletsFromExcel disk = ws ->
  ws <> [] ->
  let N := List.length ws in
  (exists scheds pass, Driver.run env disk scheds = Some pass) /\
  (forall scheds pass,
     Driver.run env disk scheds = Some pass ->
     Driver.ending pass = Driver.Wait (Sleep (Double.of_Z 7200000)) /\
     Driver.summary pass =
       Some (mkStats (tally count_success env N 0 ws)
                     (tally count_failed env N 0 ws)) /\
     Forall (fun m => snd m <= 10) (marks (Driver.trace pass)) /\
     (writable disk = true ->
      sheet (Driver.disk_after pass) =
      Some (updatedData (settle_points env N 0 ws))) /\
     (writable disk = false -> Driver.disk_after pass = disk)).
Proof.
  intros Hread Hws N.
  assert (Hlen : (List.length ws =? 0) = false).
  { destruct ws; [congruence | reflexivity]. }
  assert (Hsheet : sheet disk = Some ws).
  { unfold readWalletsFromExcel in Hread.
    destruct (sheet disk); congruence. }
  split.
  - destruct (batches_loop_exists env N MAX_CONCURRENT_WALLETS
                ltac:(unfold MAX_CONCURRENT_WALLETS; lia) N 0
                (mkShared (mkStats 0 0) ws) ltac:(lia))
      as (scheds & [[st rows] tr] & H).
    exists scheds. unfold Driver.run, Driver.run_try. rewrite Hread, Hlen.
    unfold processWalletsInBatches. fold N. rewrite H. eauto.
  - intros scheds pass. unfold Driver.run, Driver.run_try.
    rewrite Hread, Hlen.
    destruct (processWalletsInBatches env ws MAX_CONCURRENT_WALLETS scheds)
      as [[sh tr] |] eqn:Hrun; [| discriminate].
    pose proof (processWalletsInBatches_in_order _ _ _ _ _ _ Hrun) as Hsh.
    destruct (run_in_order_stats env ws) as (Hs & Hf & Hw).
    cbn zeta in Hs, Hf, Hw. rewrite <- Hsh in Hs, Hf, Hw.
    assert (Hg : grouped MAX_CONCURRENT_WALLETS N 0 tr).
    { unfold processWalletsInBatches in Hrun.
      apply (batches_loop_grouped _ _ _ _ _ _ _ _ eq_refl Hrun). }
    apply grouped_marks in Hg; [| unfold MAX_CONCURRENT_WALLETS; lia].
    destruct sh as [st rows]. cbn [stats wallets] in *.
    intros [= <-]. cbn [Driver.ending Driver.summary Driver.trace Driver.disk_after].
    split; [rewrite two_hours; reflexivity |].
    split; [destruct st; cbn [success failed] in *; subst N; congruence |].
    split; [rewrite Hg; apply groups_from_sizes |].
    unfold updatePointsToExcel. rewrite Hsheet.
    split; intros Hwr; rewrite Hwr; [| reflexivity].
    cbn [sheet]. rewrite Hw. reflexivity.
Qed.

Lemma run_persists_points_witness :
  readWalletsFromExcel sample_disk = three_wallets /\
  three_wallets <> [] /\
  exists pass,
    Driver.run env_mixed sample_disk mixed_schedule_one_group = Some pass /\
    Driver.summary pass = Some (mkStats 1 1) /\
    option_map (map point) (sheet (Driver.disk_after pass))
    = Some [JNum 0; JNum 42; JNum 0].
Proof.
  split; [reflexivity |]. split; [discriminate |].
  destruct (Driver.run env_mixed sample_disk mixed_schedule_one_group)
    as [pass |] eqn:Hrun; [| discriminate Hrun].
  exists pass. split; [reflexivity |].
  destruct (run_persists_points env_mixed sample_disk three_wallets eq_refl)
    as (_ & H); [discriminate |].
  destruct (H mixed_schedule_one_group pass Hrun) as (_ & Hsum & _ & Hw & _).
  split.
  - rewrite Hsum. reflexivity.
  - rewrite (Hw eq_refl). reflexivity.
Defined.

(* ================================================================== *)
(** * Properties of newAgent *)
(* ================================================================== *)

Lemma http_is_not_socks (p : string) :
  startsWith p "http://" = true ->
  startsWith p "socks4://" = false /\ startsWith p "socks5://" = false.
Proof.
  unfold startsWith.
  destruct p as [| c p]; [discriminate |].
  destruct c as [[] [] [] [] [] [] [] []]; cbn; try discriminate;
    intros _; split; reflexivity.
Qed.

(** X21.  [newAgent] hands the proxy string, unchanged, to the
    constructor of an HTTP-tunnelling agent exactly when it starts with
    "http://" and to the constructor of a SOCKS agent exactly when it
    starts with "socks4://" or "socks5://"; it returns the agent when
    the constructor accepts the string and throws when it does not, and
    then the constructor of the session throws too.  It logs a warning
    exactly when the proxy is not empty and no constructor is called. *)
Theorem newAgent_selection (lib : Library) (proxy : option string) :
  (forall p, fst (newAgent lib proxy) = inr (Some (HttpsProxyAgent p)) <->
             proxy = Some p /\ startsWith p "http://" = true /\
             https_agent lib p = true) /\
  (forall p, fst (newAgent lib proxy) = inr (Some (SocksProxyAgent p)) <->
             proxy = Some p /\
             (startsWith p "socks4://" = true \/ startsWith p "socks5://" = true) /\
             socks_agent lib p = true) /\
  (forall e, fst (newAgent lib proxy) = inl e <->
             e = InvalidUrl /\
             exists p,
               proxy = Some p /\
               (startsWith p "http://" = true /\ https_agent lib p = false \/
                (startsWith p "socks4://" = true \/ startsWith p "socks5://" = true) /\
                socks_agent lib p = false)) /\
  (forall p, snd (newAgent lib proxy) = [p] <->
             proxy = Some p /\ p <> "" /\
             startsWith p "http://" = false /\
             startsWith p "socks4://" = false /\
             startsWith p "socks5://" = false) /\
  (forall p, snd (newAgent lib proxy) = [p] -> fst (newAgent lib proxy) = inr None) /\
  (snd (newAgent lib proxy) = [] \/ exists p, snd (newAgent lib proxy) = [p]) /\
  (forall e privateKey refCode,
     fst (newAgent lib proxy) = inl e ->
     L.new lib proxy privateKey refCode = inl e).
Proof.
  destruct proxy as [q |]; cbn [newAgent].
  2:{ cbn [fst snd].
      split; [| split; [| split; [| split; [| split; [| split]]]]].
      - intros p. split; [discriminate | intros (H & _); discriminate H].
      - intros p. split; [discriminate | intros (H & _); discriminate H].
      - intros e. split; [discriminate |].
        intros (_ & p & H & _). discriminate H.
      - intros p. split; [discriminate | intros (H & _); discriminate H].
      - intros p H. discriminate H.
      - left. reflexivity.
      - intros e privateKey refCode H. discriminate H. }
  assert (Hempty : startsWith "" "http://" = false /\
                   startsWith "" "socks4://" = false /\
                   startsWith "" "socks5://" = false) by (repeat split).
  destruct Hempty as (He1 & He2 & He3).
  unfold L.new, httpsAgent_entry. cbn [newAgent].
  destruct (String.eqb q "") eqn:Hq; cbn [negb].
  { apply String.eqb_eq in Hq. subst q. cbn [fst snd].
    split; [| split; [| split; [| split; [| split; [| split]]]]].
    - intros p. split; [discriminate |]. intros (H1 & H2 & _).
      injection H1 as <-. congruence.
    - intros p. split; [discriminate |]. intros (H1 & [H2 | H2] & _);
        injection H1 as <-; congruence.
    - intros e. split; [discriminate |].
      intros (_ & p & H1 & [(H2 & _) | ([H2 | H2] & _)]);
        injection H1 as <-; congruence.
    - intros p. split; [discriminate |]. intros (H1 & H2 & _).
      injection H1 as <-. congruence.
    - intros p H. discriminate H.
    - left. reflexivity.
    - intros e privateKey refCode H. discriminate H. }
  apply String.eqb_neq in Hq.
  destruct (startsWith q "http://") eqn:Hh.
  { destruct (http_is_not_socks q Hh) as [H4 H5].
    destruct (https_agent lib q) eqn:Hok; cbn [fst snd bindR];
      (split; [| split; [| split; [| split; [| split; [| split]]]]]).
    - intros p. split.
      + intros H. injection H as <-. auto.
      + intros (H & _). injection H as <-. reflexivity.
    - intros p. split; [discriminate |]. intros (H1 & [H2 | H2] & _);
        injection H1 as <-; congruence.
    - intros e. split; [discriminate |].
      intros (_ & p & H1 & [(_ & H2) | ([H2 | H2] & _)]);
        injection H1 as <-; congruence.
    - intros p. split; [discriminate |]. intros (H1 & _ & H2 & _).
      injection H1 as <-. congruence.
    - intros p H. discriminate H.
    - left. reflexivity.
    - intros e privateKey refCode H. discriminate H.
    - intros p. split; [discriminate |]. intros (H1 & _ & H2).
      injection H1 as <-. congruence.
    - intros p. split; [discriminate |]. intros (H1 & [H2 | H2] & _);
        injection H1 as <-; congruence.
    - intros e. split.
      + intros [= <-]. split; [reflexivity |]. exists q. auto.
      + intros (-> & _). reflexivity.
    - intros p. split; [discriminate |]. intros (H1 & _ & H2 & _).
      injection H1 as <-. congruence.
    - intros p H. discriminate H.
    - left. reflexivity.
    - intros e privateKey refCode [= <-]. reflexivity. }
  destruct (startsWith q "socks4://" || startsWith q "socks5://") eqn:Hs.
  { apply orb_prop in Hs.
    destruct (socks_agent lib q) eqn:Hok; cbn [fst snd bindR];
      (split; [| split; [| split; [| split; [| split; [| split]]]]]).
    - intros p. split; [discriminate |]. intros (H1 & H2 & _).
      injection H1 as <-. congruence.
    - intros p. split.
      + intros H. injection H as <-. auto.
      + intros (H & _). injection H as <-. reflexivity.
    - intros e. split; [discriminate |].
      intros (_ & p & H1 & [(H2 & _) | (_ & H2)]);
        injection H1 as <-; congruence.
    - intros p. split; [discriminate |]. intros (H1 & _ & _ & H2 & H3).
      injection H1 as <-. destruct Hs; congruence.
    - intros p H. discriminate H.
    - left. reflexivity.
    - intros e privateKey refCode H. discriminate H.
    - intros p. split; [discriminate |]. intros (H1 & H2 & _).
      injection H1 as <-. congruence.
    - intros p. split; [discriminate |]. intros (H1 & _ & H2).
      injection H1 as <-. congruence.
    - intros e. split.
      + intros [= <-]. split; [reflexivity |]. exists q. auto.
      + intros (-> & _). reflexivity.
    - intros p. split; [discriminate |]. intros (H1 & _ & _ & H2 & H3).
      injection H1 as <-. destruct Hs; congruence.
    - intros p H. discriminate H.
    - left. reflexivity.
    - intros e privateKey refCode [= <-]. reflexivity. }
  cbn [fst snd bindR]. apply orb_false_elim in Hs. destruct Hs as [Hs4 Hs5].
  split; [| split; [| split; [| split; [| split; [| split]]]]].
  - intros p. split; [discriminate |]. intros (H1 & H2 & _).
    injection H1 as <-. congruence.
  - intros p. split; [discriminate |]. intros (H1 & [H2 | H2] & _);
      injection H1 as <-; congruence.
  - intros e. split; [discriminate |].
    intros (_ & p & H1 & [(H2 & _) | ([H2 | H2] & _)]);
      injection H1 as <-; congruence.
  - intros p. split.
    + intros H. injection H as <-. auto.
    + intros (H & _). injection H as <-. reflexivity.
  - intros p _. reflexivity.
  - right. eauto.
  - intros e privateKey refCode H. discriminate H.
Qed.

Lemma newAgent_selection_witness :
  fst (newAgent sample_lib (Some "http://")) = inl InvalidUrl /\
  L.new sample_lib (Some "http://") "k1" "ref" = inl InvalidUrl /\
  fst (newAgent sample_lib (Some "socks5://10.0.0.1:1080"))
  = inr (Some (SocksProxyAgent "socks5://10.0.0.1:1080")).
Proof.
  pose proof (newAgent_selection sample_lib (Some "http://"))
    as (_ & _ & _ & _ & _ & _ & Hnew).
  split; [reflexivity |]. split; [apply Hnew; reflexivity |].
  apply (newAgent_selection sample_lib (Some "socks5://10.0.0.1:1080")).
  repeat split. right. reflexivity.
Defined.

(** X22.  Schemes are matched literally: a proxy given as "https://...",
    "HTTP://...", "socks://..." or "socks5h://..." selects no agent and
    is only warned about, and the [httpsAgent] entry of the session is
    then present with the value [null]. *)
Theorem unsupported_schemes (lib : Library) (rest : string) :
  newAgent lib (Some ("https://" ++ rest)%string)
  = (inr None, ["https://" ++ rest]%string) /\
  newAgent lib (Some ("HTTP://" ++ rest)%string)
  = (inr None, ["HTTP://" ++ rest]%string) /\
  newAgent lib (Some ("socks://" ++ rest)%string)
  = (inr None, ["socks://" ++ rest]%string) /\
  newAgent lib (Some ("socks5h://" ++ rest)%string)
  = (inr None, ["socks5h://" ++ rest]%string) /\
  httpsAgent_entry lib (Some ("https://" ++ rest)%string) = inr (Some None) /\
  httpsAgent_entry lib (Some "") = inr None /\
  httpsAgent_entry lib None = inr None.
Proof. repeat split. Qed.
